(** * update_feed.js: the Wine-Searcher feed export, embedded and verified

    The program fetches a Square catalog and its inventory counts, joins
    them in memory, derives a vintage and a unit size from each display
    name, and writes a pipe-delimited text file.

    Conventions of the embedding.
    - A JavaScript string is a [string]; each [ascii] is read as one UTF-16
      code unit in the range U+0000..U+00FF.  On that range the built-ins
      used by the program ([toLowerCase], [trim], [includes], [match],
      [encodeURIComponent]) are closed, and they are written out below
      following ECMAScript.
    - An optional JSON field is an [option]; [x || d] on an optional string
      is [truthy_or].
    - A [Map] keyed by strings is a [gmap string _]; [set] is insertion.
    - A JavaScript number is kept as an integer or as a dyadic rational
      [mant * 2^expo]; the one division of the program is rounded to
      binary64 explicitly.
    - A run leaves a trace of events (requests, the write, console output)
      and ends with a value or a thrown error.  What the remote end answers
      and whether the write returns are given from outside ([remote],
      [file_system]); a parsed body is [null] or is read through its
      fields. *)

From Stdlib Require Import ZArith Ascii.
From stdpp Require Import gmap strings list pretty.

Local Open Scope Z_scope.

(** ** Code units and the string built-ins *)

Module Js.

Definition code (c : ascii) : N := N_of_ascii c.

Definition in_range (lo hi : N) (c : ascii) : bool :=
  ((lo <=? code c) && (code c <=? hi))%N.

(** [\d] of a non-unicode regular expression: 0-9. *)
Definition isDigit (c : ascii) : bool := in_range 48 57 c.

Definition isUpper (c : ascii) : bool := in_range 65 90 c.
Definition isLower (c : ascii) : bool := in_range 97 122 c.

(** [\w] of a non-unicode regular expression: A-Z a-z 0-9 and underscore. *)
Definition isWordChar (c : ascii) : bool :=
  isUpper c || isLower c || isDigit c || Ascii.eqb c "_".

(** WhiteSpace and LineTerminator code units below U+0100:
    TAB, LF, VT, FF, CR, SP and NBSP. *)
Definition isSpace (c : ascii) : bool :=
  in_range 9 13 c || Ascii.eqb c " " || (code c =? 160)%N.

(** [String.prototype.toLowerCase] on one code unit: A-Z, and the
    Latin-1 capitals U+00C0..U+00DE except the multiplication sign U+00D7,
    move up by 32. *)
Definition lowerChar (c : ascii) : ascii :=
  if isUpper c || (in_range 192 222 c && negb (code c =? 215)%N)
  then ascii_of_N (code c + 32) else c.

Fixpoint toLowerCase (s : string) : string :=
  match s with
  | "" => ""
  | String c s' => String (lowerChar c) (toLowerCase s')
  end.

Fixpoint trimStart (s : string) : string :=
  match s with
  | "" => ""
  | String c s' => if isSpace c then trimStart s' else s
  end.

Fixpoint trimEnd (s : string) : string :=
  match s with
  | "" => ""
  | String c s' =>
      match trimEnd s' with
      | "" => if isSpace c then "" else String c ""
      | r => String c r
      end
  end.

(** [String.prototype.trim] *)
Definition trim (s : string) : string := trimEnd (trimStart s).

(** [t] is a prefix of [s]. *)
Fixpoint startsWith (s t : string) : bool :=
  match t, s with
  | "", _ => true
  | String b t', String a s' => Ascii.eqb a b && startsWith s' t'
  | String _ _, "" => false
  end.

(** [String.prototype.includes] *)
Fixpoint includes (s t : string) : bool :=
  startsWith s t ||
  match s with
  | "" => false
  | String _ s' => includes s' t
  end.

(** [Array.prototype.join] on an array of strings. *)
Fixpoint join (sep : string) (l : list string) : string :=
  match l with
  | [] => ""
  | [x] => x
  | x :: rest => x +:+ sep +:+ join sep rest
  end.

(** [String.prototype.replace] with a global regular expression that is a
    plain literal [pat] (non-empty): every non-overlapping occurrence, left to
    right, is replaced by [rep].  [skip] counts the code units of the current
    occurrence still to be passed over. *)
Fixpoint replaceAll_from (pat rep : string) (skip : nat) (s : string) : string :=
  match s with
  | "" => ""
  | String c s' =>
      match skip with
      | S k => replaceAll_from pat rep k s'
      | O =>
          if startsWith s pat
          then rep +:+ replaceAll_from pat rep (Nat.pred (String.length pat)) s'
          else String c (replaceAll_from pat rep O s')
      end
  end.

Definition replaceAll (pat rep s : string) : string := replaceAll_from pat rep O s.

(** The characters [encodeURIComponent] leaves alone:
    A-Z a-z 0-9 - _ . ! ~ * ' ( ) *)
Definition isUnreserved (c : ascii) : bool :=
  isUpper c || isLower c || isDigit c ||
  existsb (Ascii.eqb c) ["-"; "_"; "."; "!"; "~"; "*"; "'"; "("; ")"]%char.

Definition hexDigit (n : N) : ascii :=
  if (n <? 10)%N then ascii_of_N (48 + n) else ascii_of_N (55 + n).

(** One octet as [%XX], upper-case hexadecimal. *)
Definition percent (n : N) : string :=
  String "%" (String (hexDigit (n / 16)) (String (hexDigit (n mod 16)) "")).

(** [encodeURIComponent] on one code unit below U+0100: unreserved
    characters stay, other ASCII becomes one escaped octet, U+0080..U+00FF
    becomes the two escaped octets of its UTF-8 encoding. *)
Definition encodeChar (c : ascii) : string :=
  if isUnreserved c then String c ""
  else if (code c <? 128)%N then percent (code c)
  else percent (192 + code c / 64) +:+ percent (128 + code c mod 64).

Fixpoint encodeURIComponent (s : string) : string :=
  match s with
  | "" => ""
  | String c s' => encodeChar c +:+ encodeURIComponent s'
  end.

(** *** A backtracking matcher for the regular expressions of the program

    Only the constructs that occur in the source are present.  [rmatch r prev
    s] lists, in the priority order of the backtracking semantics, every way
    [r] can match at the front of [s] when [prev] is the code unit just
    before: the matched text, the code unit before the rest, and the rest. *)

Inductive regex : Type :=
| RChar (c : ascii)          (* a literal character *)
| RDigit                     (* \d *)
| RWordB                     (* \b *)
| RAlt (r1 r2 : regex)       (* r1|r2 *)
| RSeq (r1 r2 : regex).      (* r1r2 *)

Definition isWordAt (c : option ascii) : bool :=
  match c with Some a => isWordChar a | None => false end.

Definition firstChar (s : string) : option ascii :=
  match s with "" => None | String c _ => Some c end.

Definition outcome : Type := string * option ascii * string.

Fixpoint rmatch (r : regex) (prev : option ascii) (s : string) : list outcome :=
  match r with
  | RChar c =>
      match s with
      | String a s' => if Ascii.eqb a c then [(String a "", Some a, s')] else []
      | "" => []
      end
  | RDigit =>
      match s with
      | String a s' => if isDigit a then [(String a "", Some a, s')] else []
      | "" => []
      end
  | RWordB =>
      if xorb (isWordAt prev) (isWordAt (firstChar s)) then [("", prev, s)] else []
  | RAlt r1 r2 => rmatch r1 prev s ++ rmatch r2 prev s
  | RSeq r1 r2 =>
      flat_map
        (fun o1 : outcome =>
           let '(t1, p1, s1) := o1 in
           map (fun o2 : outcome => let '(t2, p2, s2) := o2 in (t1 +:+ t2, p2, s2))
               (rmatch r2 p1 s1))
        (rmatch r1 prev s)
  end.

(** [String.prototype.match] with a non-global expression: the first start
    position, left to right, at which the expression matches; the result is
    the matched text [m[0]]. *)
Fixpoint search (r : regex) (prev : option ascii) (s : string) : option string :=
  match rmatch r prev s with
  | (t, _, _) :: _ => Some t
  | [] =>
      match s with
      | "" => None
      | String c s' => search r (Some c) s'
      end
  end.

Definition matchFirst (r : regex) (s : string) : option string := search r None s.

(** [x || d] for an optional string: the value when present and non-empty. *)
Definition truthy_or (x : option string) (d : string) : string :=
  match x with
  | Some (String c s) => String c s
  | _ => d
  end.

(** A string in a condition: true unless empty. *)
Definition truthy (s : string) : bool :=
  match s with "" => false | String _ _ => true end.

(** Optional chaining [x?.f]: absent when [x] is. *)
Definition chain {A B : Type} (x : option A) (f : A -> option B) : option B :=
  match x with
  | Some a => f a
  | None => None
  end.

(** [!x] for an optional string. *)
Definition falsy (x : option string) : bool :=
  match x with
  | Some (String _ _) => false
  | _ => true
  end.

End Js.

Import Js.

Notation "x ?. f" := (chain x f) (at level 15, left associativity, format "x ?. f").

(** ** Constants of the module *)

Definition SQUARE_VERSION : string := "2024-01-18".
Definition OUT : string := "winesearcher-feed.txt".
Definition TAX : string := "Inc.tax".
Definition OFFER : string := "R".
Definition DELIVERY : string := "Next day".
Definition SHOP_SEARCH_BASE : string := "https://www.magazzinonyc.com/s/shop?query=".

(** ** Field derivation *)

(** [encodeURIComponent(q).replace(/%20/g, "%20")] *)
Definition encodeQuery (q : string) : string :=
  replaceAll "%20" "%20" (encodeURIComponent q).

Definition lit2 (a b : ascii) : regex := RSeq (RChar a) (RChar b).

(** [/\b(18|19|20)\d{2}\b/] *)
Definition vintage_re : regex :=
  RSeq RWordB
    (RSeq (RAlt (lit2 "1" "8") (RAlt (lit2 "1" "9") (lit2 "2" "0")))
       (RSeq RDigit (RSeq RDigit RWordB))).

Definition guessVintage (name : string) : string :=
  match matchFirst vintage_re name with
  | Some m => m
  | None => "NV"
  end.

Definition guessUnitSize (name : string) : string :=
  let n := toLowerCase name in
  if includes n "magnum" || includes n "1.5l" || includes n "1500" then "1.5L Magnum"
  else if includes n "375" then "375ml"
  else if includes n "500" then "500ml"
  else if includes n "1l" || includes n "1000" then "1L"
  else if includes n "3l" then "3L"
  else "750ml".

(** ** Numbers

    The integers the API sends (a price in minor units, a stock quantity)
    are safe integers: binary64 holds each of them exactly, and
    [Number.prototype.toString] prints such a number as its decimal
    expansion. *)

Definition isSafeInteger (z : Z) : bool := Z.abs z <=? 2 ^ 53 - 1.

Record safe_int : Type := SafeInt { sval : Z; sprf : isSafeInteger sval = true }.

(** [x || d] for an optional number: zero is falsy. *)
Definition num_or (x : option safe_int) (d : Z) : Z :=
  match x with
  | Some z => if sval z =? 0 then d else sval z
  | None => d
  end.

(** [String(x)] for a safe integer. *)
Definition NumberToString (z : Z) : string := pretty z.

(** A finite binary64 value, [mant * 2^expo]. *)
Record dyadic : Type := Dyadic { mant : Z; expo : Z }.

(** [x * 2^k] for [k >= 0], and [x] otherwise. *)
Definition scale (x k : Z) : Z := x * 2 ^ Z.max k 0.

(** The integer nearest to [n / d], ties to even ([0 <= n], [0 < d]). *)
Definition div_nearest_even (n d : Z) : Z :=
  let q := n / d in
  match 2 * (n mod d) ?= d with
  | Lt => q
  | Gt => q + 1
  | Eq => if Z.even q then q else q + 1
  end.

(** [floor (log2 (n / d))] for positive [n] and [d]. *)
Definition ilog2_ratio (n d : Z) : Z :=
  let l := Z.log2 n - Z.log2 d in
  if scale d l <=? scale n (- l) then l else l - 1.

(** The binary64 value nearest to [n / d], ties to even, for positive [n]
    and [d] with the quotient in the normal range: the exponent is chosen so
    that the significand has 53 bits. *)
Definition binary64_ratio (n d : Z) : dyadic :=
  let e := ilog2_ratio n d - 52 in
  {| mant := div_nearest_even (scale n (- e)) (scale d e); expo := e |}.

(** [a / b] on numbers holding the integers [a] and [b > 0]. *)
Definition fdiv (a b : Z) : dyadic :=
  if a =? 0 then {| mant := 0; expo := 0 |}
  else
    let x := binary64_ratio (Z.abs a) b in
    {| mant := Z.sgn a * mant x; expo := expo x |}.

(** The integer [n] for which [n / k - |x|] is closest to zero, the larger
    one when there are two. *)
Definition nearest_scaled (k : Z) (x : dyadic) : Z :=
  let p := k * Z.abs (mant x) in
  if 0 <=? expo x then p * 2 ^ expo x
  else (2 * p + 2 ^ (- expo x)) / (2 * 2 ^ (- expo x)).

Fixpoint zeros (n : nat) : string :=
  match n with
  | O => ""
  | S n' => String "0" (zeros n')
  end.

(** The digits [m] of an integer, padded with zeros to three, with a point
    before the last two. *)
Definition pointBeforeLast2 (m : string) : string :=
  let m := if (String.length m <=? 2)%nat
           then zeros (3 - String.length m) +:+ m else m in
  let k := String.length m in
  String.substring 0 (k - 2) m +:+ "." +:+ String.substring (k - 2) 2 m.

(** [Number.prototype.toFixed(2)] for [|x| < 10^21]: the sign, then the
    digits of the integer nearest to [100 * |x|], pointed. *)
Definition toFixed2 (x : dyadic) : string :=
  let s := if mant x <? 0 then "-" else "" in
  let n := nearest_scaled 100 x in
  s +:+ pointBeforeLast2 (pretty (Z.to_N n)).

(** [(Number(cents || 0) / 100).toFixed(2)] *)
Definition centsToDollars (cents : option safe_int) : string :=
  toFixed2 (fdiv (num_or cents 0) 100).

(** The amount divided by 100, written with exactly two fraction digits:
    a sign, the whole units, a point, the tens and the units of the cents. *)
Definition digitChar (d : N) : ascii := ascii_of_N (48 + d).

Definition decimal2 (c : Z) : string :=
  let n := Z.to_N (Z.abs c) in
  (if c <? 0 then "-" else "") +:+
  pretty (n / 100)%N +:+ "." +:+
  String (digitChar (n / 10 mod 10)%N) (String (digitChar (n mod 10)%N) "").

(** ** The remote data, as the program reads it

    Every field the program reads through [?.] or defaults with [||] is
    optional. *)

Record money : Type := { money_amount : option safe_int }.

Record item_variation_data : Type := {
  ivd_sku : option string;
  ivd_item_id : option string;
  ivd_name : option string;
  ivd_price_money : option money
}.

Record variation : Type := {
  var_id : string;
  var_item_variation_data : option item_variation_data
}.

Record item_data : Type := { item_name : option string }.

Record related_object : Type := {
  obj_type : string;
  obj_id : string;
  obj_item_data : option item_data
}.

Record catalog_response : Type := {
  cat_objects : option (list variation);
  cat_related_objects : option (list related_object)
}.

(** [quantity] is the count as a number: Square sends a decimal string such
    as "7", and [Number] reads it as the same number as the literal 7. *)
Record inventory_count : Type := {
  cnt_catalog_object_id : string;
  cnt_quantity : option safe_int
}.

Record inventory_response : Type := { inv_counts : option (list inventory_count) }.

(** The objects pushed on [usable]. *)
Record usable_row : Type := {
  u_sku : string;
  u_name : string;
  u_variationId : string;
  u_price : string;
  u_imageUrl : option string
}.

(** ** Catalog join *)

Definition itemNameById (related : list related_object) : gmap string string :=
  foldl
    (fun m obj =>
       if String.eqb (obj_type obj) "ITEM"
       then <[obj_id obj := truthy_or (obj_item_data obj?.item_name) ""]> m
       else m)
    ∅ related.

(** The expression bound to [fullName]. *)
Definition fullName (itemName varName : string) : string :=
  if truthy varName && negb (String.eqb (toLowerCase varName) "regular")
  then trim (itemName +:+ " " +:+ varName)
  else trim itemName.

(** One turn of the loop over [variations]: [None] is [continue]. *)
Definition usableRow (names : gmap string string) (v : variation) : option usable_row :=
  let d := var_item_variation_data v in
  let sku := d?.ivd_sku in
  if falsy sku then None
  else
    let sku := truthy_or sku "" in
    let itemId := d?.ivd_item_id in
    let itemName := truthy_or (itemId?.(fun i => names !! i)) "" in
    let varName := truthy_or (d?.ivd_name) "" in
    Some {| u_sku := sku;
            u_name := truthy_or (Some (fullName itemName varName)) sku;
            u_variationId := var_id v;
            u_price := centsToDollars (d?.ivd_price_money?.money_amount);
            u_imageUrl := None |}.

Definition usableRows (cat : catalog_response) : list usable_row :=
  let variations := default [] (cat_objects cat) in
  let related := default [] (cat_related_objects cat) in
  omap (usableRow (itemNameById related)) variations.

(** ** Inventory join and feed lines *)

Definition stockByVarId (counts : list inventory_count) : gmap string string :=
  foldl
    (fun m c =>
       <[cnt_catalog_object_id c := NumberToString (num_or (cnt_quantity c) 0)]> m)
    ∅ counts.

(** [stockByVarId.get(u.variationId) ?? "0"] *)
Definition stockOf (stock : gmap string string) (u : usable_row) : string :=
  default "0" (stock !! u_variationId u).

Definition header : string :=
  "SKU|name|description|vintage|unit-size|price|stock|url|min-order|tax|offer-type|delivery-time|LWIN|imageurl".

Definition rowFields (stock : gmap string string) (u : usable_row) : list string :=
  let vintage := guessVintage (u_name u) in
  let unitSize := guessUnitSize (u_name u) in
  let stock := stockOf stock u in
  let url := SHOP_SEARCH_BASE +:+ encodeQuery (u_name u) in
  [u_sku u; u_name u; ""; vintage; unitSize; u_price u; stock; url; "";
   TAX; OFFER; DELIVERY; ""; ""].

Definition feedRow (stock : gmap string string) (u : usable_row) : string :=
  join "|" (rowFields stock u).

Definition LF : string := String "010" "".

Definition feedLines (stock : gmap string string) (usable : list usable_row) : list string :=
  header :: map (feedRow stock) usable.

(** The text handed to [fs.writeFileSync]. *)
Definition feedText (stock : gmap string string) (usable : list usable_row) : string :=
  join LF (feedLines stock usable) +:+ LF.

(** The file content for a catalog response and an inventory response. *)
Definition feedOf (cat : catalog_response) (inv : inventory_response) : string :=
  feedText (stockByVarId (default [] (inv_counts inv))) (usableRows cat).

(** ** Effects: requests, the file, the console, and thrown errors *)

Inductive body : Type :=
| CatalogSearch (object_types : list string) (include_related_objects : bool) (limit : Z)
| BatchRetrieveCounts (catalog_object_ids location_ids states : list string).

Inductive event : Type :=
| Fetch (url method authorization squareVersion contentType : string) (b : option body)
| WriteFile (path content : string)
| ConsoleLog (msg : string)
| ConsoleError (err : string)
| Uncaught (err : string).

(** What the remote end answers: [res.ok], [res.status], [res.text()], and
    what [JSON.parse] makes of the text (the message of the error it throws,
    or the value). *)
Record response (A : Type) : Type := {
  res_ok : bool;
  res_status : N;
  res_text : string;
  res_parsed : string + A
}.
Arguments res_ok {A}.
Arguments res_status {A}.
Arguments res_text {A}.
Arguments res_parsed {A}.

(** [fetch], or the reading of the text of its response, rejects with an
    error; or the response is at hand with its text. *)
Inductive fetched (A : Type) : Type :=
| Rejected (err : string)
| Resolved (res : response A).
Arguments Rejected {A}.
Arguments Resolved {A}.

(** The value of [JSON.parse] is [null] ([None]) or a value whose fields
    are read as the records above describe ([Some]). *)
Record remote : Type := {
  catalog_search : option body -> fetched (option catalog_response);
  batch_retrieve_counts : option body -> fetched (option inventory_response)
}.

(** A computation leaves a trace of events and ends with a thrown error or
    a value; nothing after a throw runs. *)
Definition M (A : Type) : Type := (list event * (string + A))%type.

#[global] Instance M_ret : MRet M := fun A a => ([], inr a).

#[global] Instance M_bind : MBind M := fun A B k m =>
  match m with
  | (t, inl e) => (t, inl e)
  | (t, inr a) => let '(t', r) := k a in (t ++ t', r)
  end.

Definition throw {A : Type} (e : string) : M A := ([], inl e).
Definition emit (ev : event) : M unit := ([ev], inr tt).

Definition squareFetch {A : Type} (TOKEN : string) (reply : option body -> fetched A)
    (path : string) (b : option body) : M A :=
  emit (Fetch ("https://connect.squareup.com" +:+ path)
          (if b is Some _ then "POST" else "GET") ("Bearer " +:+ TOKEN) SQUARE_VERSION
          "application/json" b);;
  match reply b with
  | Rejected e => throw e
  | Resolved res =>
      if negb (res_ok res)
      then throw ("Square API " +:+ pretty (res_status res) +:+ ": " +:+ res_text res)
      else match res_parsed res with
           | inl e => throw e
           | inr v => mret v
           end
  end.

(** What the file system does with a write: [fs.writeFileSync] returns
    ([None]) or throws an error ([Some e]). *)
Record file_system : Type := {
  fs_writeFileSync : string -> string -> option string
}.

(** The call [fs.writeFileSync(path, content, "utf8")].  The event
    [WriteFile] is the call itself; what is left of the file when the call
    throws is the file system's business and is not part of the trace. *)
Definition writeFileSync (fs : file_system) (path content : string) : M unit :=
  emit (WriteFile path content);;
  match fs_writeFileSync fs path content with
  | Some e => throw e
  | None => mret tt
  end.

(** The message of the TypeError that reading the property [prop] of
    [null] throws, in the wording of V8. *)
Definition nullProperty (prop : string) : string :=
  "Cannot read properties of null (reading '" +:+ prop +:+ "')".

(** [v.prop] for the first property read from a parsed body: a TypeError
    when the body is [null]. *)
Definition notNull {A : Type} (v : option A) (prop : string) : M A :=
  match v with
  | Some a => mret a
  | None => throw (nullProperty prop)
  end.

(** [main].  A parsed body is [null] or of the record shape above, with
    strings made of code units below U+0100: on such values nothing but the
    two requests, the first property read of each body and the write can
    throw.  (On other values, a string with a lone surrogate for one, the
    source can raise a TypeError or a URIError in the join or the row
    building, which reaches [main().catch] like the errors modelled here.) *)
Definition main (TOKEN LOCATION_ID : string) (sq : remote) (fs : file_system) : M unit :=
  cat ← squareFetch TOKEN (catalog_search sq) "/v2/catalog/search"
          (Some (CatalogSearch ["ITEM_VARIATION"] true 1000));
  cat ← notNull cat "objects";
  let usable := usableRows cat in
  inv ← squareFetch TOKEN (batch_retrieve_counts sq) "/v2/inventory/batch-retrieve-counts"
          (Some (BatchRetrieveCounts (map u_variationId usable) [LOCATION_ID] ["IN_STOCK"]));
  inv ← notNull inv "counts";
  let stock := stockByVarId (default [] (inv_counts inv)) in
  writeFileSync fs OUT (feedText stock usable);;
  emit (ConsoleLog ("Wrote " +:+ OUT +:+ " with " +:+ pretty (length usable) +:+ " rows.")).

Record process_env : Type := {
  SQUARE_ACCESS_TOKEN : option string;
  SQUARE_LOCATION_ID : option string
}.

(** The whole module: the credential check at the top level, then
    [main().catch(...)].  The result is the trace and the exit status. *)
Definition program (env : process_env) (sq : remote) (fs : file_system) : list event * Z :=
  if falsy (SQUARE_ACCESS_TOKEN env) || falsy (SQUARE_LOCATION_ID env)
  then ([Uncaught "Missing SQUARE_ACCESS_TOKEN or SQUARE_LOCATION_ID secrets."], 1)
  else
    match main (truthy_or (SQUARE_ACCESS_TOKEN env) "")
               (truthy_or (SQUARE_LOCATION_ID env) "") sq fs with
    | (t, inl e) => (t ++ [ConsoleError e], 1)
    | (t, inr _) => (t, 0)
    end.

(** ** Notions used to state the properties *)

(** [t] occurs in [s]. *)
Definition Substring (t s : string) : Prop :=
  exists pre post : string, s = pre +:+ t +:+ post.

(** The tokens of a name: its maximal runs of word characters, in order. *)
Fixpoint tokens (s : string) : list string :=
  match s with
  | "" => []
  | String c s' =>
      if isWordChar c then
        match tokens s' with
        | t :: ts => if isWordAt (firstChar s') then String c t :: ts else String c "" :: t :: ts
        | [] => [String c ""]
        end
      else tokens s'
  end.

(** The two characters are 18, 19 or 20. *)
Definition yearPrefix (a b : ascii) : bool :=
  (Ascii.eqb a "1" && Ascii.eqb b "8") ||
  (Ascii.eqb a "1" && Ascii.eqb b "9") ||
  (Ascii.eqb a "2" && Ascii.eqb b "0").

(** A four-digit token whose first two digits are 18, 19 or 20. *)
Definition isVintageToken (t : string) : bool :=
  match t with
  | String a (String b (String c (String d ""))) =>
      yearPrefix a b && isDigit c && isDigit d
  | _ => false
  end.

(** The leading run of word characters of a string, and what follows it. *)
Fixpoint takeWord (s : string) : string :=
  match s with
  | "" => ""
  | String c s' => if isWordChar c then String c (takeWord s') else ""
  end.

Fixpoint dropWord (s : string) : string :=
  match s with
  | "" => ""
  | String c s' => if isWordChar c then dropWord s' else s
  end.

(** What the vintage expression matches at the front of [s], in closed
    form: four characters with the year prefix and two digits, no word
    character before or after. *)
Definition vintageAt (prev : option ascii) (s : string) : option string :=
  match s with
  | String a (String b (String c (String d rest))) =>
      if negb (isWordAt prev) && yearPrefix a b && isDigit c && isDigit d
         && negb (isWordAt (firstChar rest))
      then Some (String a (String b (String c (String d ""))))
      else None
  | _ => None
  end.

Definition firstVintageToken (name : string) : string :=
  default "NV" (List.find isVintageToken (tokens name)).

(** The name as a reading of "the trimmed concatenation of parent item name
    and variation name" without a separator would compose it. *)
Definition fullName_unseparated (itemName varName : string) : string :=
  if truthy varName && negb (String.eqb (toLowerCase varName) "regular")
  then trim (itemName +:+ varName)
  else trim itemName.

(** The string is the decimal numeral of a non-negative integer. *)
Definition denotesNat (s : string) : Prop := exists n : N, s = pretty n.

(** The last count of the response that carries the identifier. *)
Definition lastCount (counts : list inventory_count) (i : string) : option inventory_count :=
  last (filter (fun c => cnt_catalog_object_id c = i) counts).

(** The name of the parent item of a variation: that of the last related
    object of kind ITEM carrying the variation's item identifier, and the
    empty string when there is none or it has no name. *)
Definition parentName (related : list related_object) (v : variation) : string :=
  match (var_item_variation_data v)?.ivd_item_id with
  | Some i =>
      match last (filter (fun o => obj_type o = "ITEM" /\ obj_id o = i) related) with
      | Some o => default "" ((obj_item_data o)?.item_name)
      | None => ""
      end
  | None => ""
  end.

(** [String.prototype.split] on a one-character separator. *)
Fixpoint splitOn (sep : ascii) (s : string) : list string :=
  match s with
  | "" => [""]
  | String c s' =>
      if Ascii.eqb c sep then "" :: splitOn sep s'
      else match splitOn sep s' with
           | h :: t => String c h :: t
           | [] => [String c ""]
           end
  end.

(** The string without its first [k] code units. *)
Fixpoint dropChars (k : nat) (s : string) : string :=
  match k, s with
  | S k', String _ s' => dropChars k' s'
  | _, _ => s
  end.

(** How often the character occurs in the string. *)
Fixpoint occurrences (c : ascii) (s : string) : nat :=
  match s with
  | "" => O
  | String a s' => (if Ascii.eqb a c then 1 else 0) + occurrences c s'
  end.

(** The skus of the variations that carry a non-empty one, in order. *)
Definition nonEmptySku (v : variation) : option string :=
  match (var_item_variation_data v)?.ivd_sku with
  | Some (String c s) => Some (String c s)
  | _ => None
  end.

(** A required credential is absent or empty. *)
Definition credentialsMissing (env : process_env) : Prop :=
  falsy (SQUARE_ACCESS_TOKEN env) = true \/ falsy (SQUARE_LOCATION_ID env) = true.

(** The two requests of a run, as events. *)
Definition catalogFetch (TOKEN : string) : event :=
  Fetch "https://connect.squareup.com/v2/catalog/search" "POST"
    ("Bearer " +:+ TOKEN) "2024-01-18" "application/json"
    (Some (CatalogSearch ["ITEM_VARIATION"] true 1000)).

Definition inventoryFetch (TOKEN LOCATION_ID : string) (ids : list string) : event :=
  Fetch "https://connect.squareup.com/v2/inventory/batch-retrieve-counts" "POST"
    ("Bearer " +:+ TOKEN) "2024-01-18" "application/json"
    (Some (BatchRetrieveCounts ids [LOCATION_ID] ["IN_STOCK"])).

(** ** Sample data *)

Module Sample.

Definition int (z : Z) (H : isSafeInteger z = true) : option safe_int := Some (SafeInt z H).

Definition variation1 (sku item varName : string) (amount : option safe_int) : variation :=
  {| var_id := "V1";
     var_item_variation_data :=
       Some {| ivd_sku := Some sku; ivd_item_id := Some item; ivd_name := Some varName;
               ivd_price_money := Some {| money_amount := amount |} |} |}.

Definition item1 (name : string) : related_object :=
  {| obj_type := "ITEM"; obj_id := "I1"; obj_item_data := Some {| item_name := Some name |} |}.

(** The end-to-end scenario of the specification. *)
Definition cat : catalog_response :=
  {| cat_objects := Some [variation1 "ABC123" "I1" "Regular" (int 2500 eq_refl)];
     cat_related_objects := Some [item1 "Chateau Test"] |}.

Definition inv : inventory_response :=
  {| inv_counts := Some [{| cnt_catalog_object_id := "V1"; cnt_quantity := int 7 eq_refl |}] |}.

(** A catalog whose only variation has a pipe in its sku. *)
Definition pipe_cat : catalog_response :=
  {| cat_objects := Some [variation1 "AB|12" "I1" "Regular" None];
     cat_related_objects := Some [item1 "Chateau Test"] |}.

(** A count below zero, as Square reports for oversold stock. *)
Definition oversold : list inventory_count :=
  [{| cnt_catalog_object_id := "V1"; cnt_quantity := int (-3) eq_refl |}].

Definition row1 : usable_row :=
  {| u_sku := "ABC123"; u_name := "Chateau Test"; u_variationId := "V1";
     u_price := "25.00"; u_imageUrl := None |}.

(** A catalog whose only variation is a magnum of the item. *)
Definition magnum_cat : catalog_response :=
  {| cat_objects := Some [variation1 "ABC123" "I1" "Magnum" None];
     cat_related_objects := Some [item1 "Chateau Test"] |}.

Definition ok {A : Type} (v : A) : fetched A :=
  Resolved {| res_ok := true; res_status := 200; res_text := "{}"; res_parsed := inr v |}.

Definition square : remote :=
  {| catalog_search := fun _ => ok (Some cat);
     batch_retrieve_counts := fun _ => ok (Some inv) |}.

Definition env : process_env :=
  {| SQUARE_ACCESS_TOKEN := Some "token"; SQUARE_LOCATION_ID := Some "L1" |}.

(** A remote end that refuses the catalog search. *)
Definition refused {A : Type} : fetched A :=
  Resolved {| res_ok := false; res_status := 401; res_text := "denied";
              res_parsed := inl "Unexpected token d" |}.

Definition square_refusing : remote :=
  {| catalog_search := fun _ => refused; batch_retrieve_counts := fun _ => ok (Some inv) |}.

Definition env_no_location : process_env :=
  {| SQUARE_ACCESS_TOKEN := Some "token"; SQUARE_LOCATION_ID := None |}.

(** A file system on which the write returns, and one on which it throws. *)
Definition disk : file_system := {| fs_writeFileSync := fun _ _ => None |}.

Definition disk_full : file_system :=
  {| fs_writeFileSync := fun _ _ => Some "ENOSPC: no space left on device, write" |}.

(** A remote end whose catalog holds nothing. *)
Definition square_empty : remote :=
  {| catalog_search :=
       fun _ => ok (Some {| cat_objects := None; cat_related_objects := None |});
     batch_retrieve_counts := fun _ => ok (Some {| inv_counts := None |}) |}.

(** A remote end whose count request fails at the network. *)
Definition square_offline_counts : remote :=
  {| catalog_search := fun _ => ok (Some cat);
     batch_retrieve_counts := fun _ => Rejected "fetch failed" |}.

(** Remote ends that answer the word [null] with a success status. *)
Definition square_null : remote :=
  {| catalog_search := fun _ => ok None; batch_retrieve_counts := fun _ => ok (Some inv) |}.

Definition square_null_counts : remote :=
  {| catalog_search := fun _ => ok (Some cat); batch_retrieve_counts := fun _ => ok None |}.

End Sample.

(** The scenario for arbitrary identifiers of the variation and its item. *)
Definition scenario_cat (vid iid : string) : catalog_response :=
  {| cat_objects :=
       Some [{| var_id := vid;
                var_item_variation_data :=
                  Some {| ivd_sku := Some "ABC123"; ivd_item_id := Some iid;
                          ivd_name := Some "Regular";
                          ivd_price_money := Some {| money_amount := Sample.int 2500 eq_refl |} |} |}];
     cat_related_objects :=
       Some [{| obj_type := "ITEM"; obj_id := iid;
                obj_item_data := Some {| item_name := Some "Chateau Test" |} |}] |}.

Definition scenario_inv (vid : string) : inventory_response :=
  {| inv_counts := Some [{| cnt_catalog_object_id := vid; cnt_quantity := Sample.int 7 eq_refl |}] |}.

(** ** Further notions: character classes of fields, decoding, values *)

(** Every code unit of the string satisfies the test. *)
Fixpoint allChars (P : ascii -> bool) (s : string) : bool :=
  match s with
  | "" => true
  | String c s' => P c && allChars P s'
  end.

(** What an encoded query is made of: unreserved characters and the
    percent sign (the hexadecimal digits are unreserved). *)
Definition isUrlChar (c : ascii) : bool := isUnreserved c || Ascii.eqb c "%".

(** Neither the column separator nor the line separator. *)
Definition isPlain (c : ascii) : bool :=
  negb (Ascii.eqb c "|") && negb (Ascii.eqb c "010").

(** The value of an upper-case hexadecimal digit. *)
Definition hexValue (c : ascii) : option N :=
  if isDigit c then Some (code c - 48)%N
  else if in_range 65 70 c then Some (code c - 55)%N
  else None.

(** Reads back the first code unit of an encoded query: a character that
    is not a percent sign stands for itself, one escaped octet below 128
    for that code unit, and two escaped octets for the code unit whose
    UTF-8 encoding they are. *)
Definition decodeFirst (s : string) : option (ascii * string) :=
  match s with
  | "" => None
  | String c rest =>
      if Ascii.eqb c "%" then
        match rest with
        | String h (String l rest1) =>
            match hexValue h, hexValue l with
            | Some a, Some b =>
                let n := (16 * a + b)%N in
                if (n <? 128)%N then Some (ascii_of_N n, rest1)
                else
                  match rest1 with
                  | String p (String h2 (String l2 rest2)) =>
                      match Ascii.eqb p "%", hexValue h2, hexValue l2 with
                      | true, Some a2, Some b2 =>
                          Some (ascii_of_N ((n - 192) * 64 + (16 * a2 + b2 - 128)), rest2)
                      | _, _, _ => None
                      end
                  | _ => None
                  end
            | _, _ => None
            end
        | _ => None
        end
      else Some (c, rest)
  end.

(** The number a string of decimal digits denotes. *)
Definition decimalValue (s : string) : N :=
  (fix go (acc : N) (s : string) : N :=
     match s with
     | "" => acc
     | String c s' => go (10 * acc + (code c - 48))%N s'
     end) 0%N s.

Fixpoint lastChar (s : string) : option ascii :=
  match s with
  | "" => None
  | String c "" => Some c
  | String _ s' => lastChar s'
  end.

Definition isSpaceAt (c : option ascii) : bool :=
  match c with Some a => isSpace a | None => false end.

(** The string begins or ends with white space. *)
Definition untrimmed (s : string) : bool :=
  isSpaceAt (firstChar s) || isSpaceAt (lastChar s).

(** The bodies of the two requests of [main]. *)
Definition catalogBody : option body :=
  Some (CatalogSearch ["ITEM_VARIATION"] true 1000).

Definition inventoryBody (LOCATION_ID : string) (cat : catalog_response) : option body :=
  Some (BatchRetrieveCounts (map u_variationId (usableRows cat)) [LOCATION_ID] ["IN_STOCK"]).

(** The request fails with the error [e]: [fetch] rejects with it, or the
    response has a non-success status and [e] carries the status code and
    the raw body, or the status is a success and [JSON.parse] throws [e]. *)
Definition fails {A : Type} (reply : option body -> fetched A) (b : option body)
    (e : string) : Prop :=
  reply b = Rejected e
  \/ (exists res : response A,
        reply b = Resolved res /\ res_ok res = false
        /\ e = "Square API " +:+ pretty (res_status res) +:+ ": " +:+ res_text res)
  \/ (exists res : response A,
        reply b = Resolved res /\ res_ok res = true /\ res_parsed res = inl e).

(** The remote end answers the request with a success status and a body
    that parses to [v]. *)
Definition answers {A : Type} (reply : option body -> fetched A) (b : option body) (v : A) : Prop :=
  exists res : response A,
    reply b = Resolved res /\ res_ok res = true /\ res_parsed res = inr v.

(** The event is a call of [fs.writeFileSync]. *)
Definition isWrite (ev : event) : bool :=
  match ev with WriteFile _ _ => true | _ => false end.

(** The runs of the program, case by case: what is left on the trace and
    the exit status. *)
Inductive run (env : process_env) (sq : remote) (fs : file_system) :
    list event -> Z -> Prop :=
| run_no_credentials :
    credentialsMissing env ->
    run env sq fs [Uncaught "Missing SQUARE_ACCESS_TOKEN or SQUARE_LOCATION_ID secrets."] 1
| run_catalog_fails (e : string) :
    ~ credentialsMissing env ->
    fails (catalog_search sq) catalogBody e ->
    run env sq fs
      [catalogFetch (truthy_or (SQUARE_ACCESS_TOKEN env) ""); ConsoleError e] 1
| run_catalog_null :
    ~ credentialsMissing env ->
    answers (catalog_search sq) catalogBody None ->
    run env sq fs
      [catalogFetch (truthy_or (SQUARE_ACCESS_TOKEN env) "");
       ConsoleError (nullProperty "objects")] 1
| run_inventory_fails (cat : catalog_response) (e : string) :
    ~ credentialsMissing env ->
    answers (catalog_search sq) catalogBody (Some cat) ->
    fails (batch_retrieve_counts sq)
      (inventoryBody (truthy_or (SQUARE_LOCATION_ID env) "") cat) e ->
    run env sq fs
      [catalogFetch (truthy_or (SQUARE_ACCESS_TOKEN env) "");
       inventoryFetch (truthy_or (SQUARE_ACCESS_TOKEN env) "")
         (truthy_or (SQUARE_LOCATION_ID env) "") (map u_variationId (usableRows cat));
       ConsoleError e] 1
| run_inventory_null (cat : catalog_response) :
    ~ credentialsMissing env ->
    answers (catalog_search sq) catalogBody (Some cat) ->
    answers (batch_retrieve_counts sq)
      (inventoryBody (truthy_or (SQUARE_LOCATION_ID env) "") cat) None ->
    run env sq fs
      [catalogFetch (truthy_or (SQUARE_ACCESS_TOKEN env) "");
       inventoryFetch (truthy_or (SQUARE_ACCESS_TOKEN env) "")
         (truthy_or (SQUARE_LOCATION_ID env) "") (map u_variationId (usableRows cat));
       ConsoleError (nullProperty "counts")] 1
| run_write_throws (cat : catalog_response) (inv : inventory_response) (e : string) :
    ~ credentialsMissing env ->
    answers (catalog_search sq) catalogBody (Some cat) ->
    answers (batch_retrieve_counts sq)
      (inventoryBody (truthy_or (SQUARE_LOCATION_ID env) "") cat) (Some inv) ->
    fs_writeFileSync fs OUT (feedOf cat inv) = Some e ->
    run env sq fs
      [catalogFetch (truthy_or (SQUARE_ACCESS_TOKEN env) "");
       inventoryFetch (truthy_or (SQUARE_ACCESS_TOKEN env) "")
         (truthy_or (SQUARE_LOCATION_ID env) "") (map u_variationId (usableRows cat));
       WriteFile OUT (feedOf cat inv);
       ConsoleError e] 1
| run_written (cat : catalog_response) (inv : inventory_response) :
    ~ credentialsMissing env ->
    answers (catalog_search sq) catalogBody (Some cat) ->
    answers (batch_retrieve_counts sq)
      (inventoryBody (truthy_or (SQUARE_LOCATION_ID env) "") cat) (Some inv) ->
    fs_writeFileSync fs OUT (feedOf cat inv) = None ->
    run env sq fs
      [catalogFetch (truthy_or (SQUARE_ACCESS_TOKEN env) "");
       inventoryFetch (truthy_or (SQUARE_ACCESS_TOKEN env) "")
         (truthy_or (SQUARE_LOCATION_ID env) "") (map u_variationId (usableRows cat));
       WriteFile OUT (feedOf cat inv);
       ConsoleLog ("Wrote " +:+ OUT +:+ " with "
                   +:+ pretty (length (usableRows cat)) +:+ " rows.")] 0.

(** * Properties *)

(** ** Strings *)

Lemma app_nil_l (s : string) : "" +:+ s = s.
Proof. reflexivity. Qed.

Lemma app_cons (a : ascii) (s t : string) : String a s +:+ t = String a (s +:+ t).
Proof. reflexivity. Qed.

Lemma app_nil_r (s : string) : s +:+ "" = s.
Proof. induction s as [|a s IH]; [reflexivity|]. rewrite app_cons, IH. reflexivity. Qed.

Lemma app_assoc (s t u : string) : (s +:+ t) +:+ u = s +:+ t +:+ u.
Proof.
  induction s as [|a s IH]; [reflexivity|].
  rewrite !app_cons, IH. reflexivity.
Qed.

Lemma length_app (s t : string) :
  String.length (s +:+ t) = (String.length s + String.length t)%nat.
Proof.
  induction s as [|a s IH]; [reflexivity|].
  rewrite app_cons. cbn [String.length]. rewrite IH. reflexivity.
Qed.

Lemma join_cons (sep x : string) (l : list string) :
  l <> [] -> join sep (x :: l) = x +:+ sep +:+ join sep l.
Proof. destruct l; [congruence | reflexivity]. Qed.

(** Joining with a separator and closing with one more is the same as
    ending every line with the separator. *)
Lemma join_terminated (sep : string) (l : list string) :
  l <> [] -> join sep l +:+ sep = fold_right (fun x acc => x +:+ sep +:+ acc) "" l.
Proof.
  induction l as [|x l IH]; [congruence|]. intros _.
  destruct l as [|y l].
  - cbn [join fold_right]. rewrite app_nil_r. reflexivity.
  - rewrite join_cons by congruence. cbn [fold_right].
    rewrite !app_assoc. rewrite IH by congruence. reflexivity.
Qed.

(** ** The feed text *)

Lemma feedText_unfold (stock : gmap string string) (usable : list usable_row) :
  feedText stock usable =
  header +:+ LF +:+ fold_right (fun u acc => feedRow stock u +:+ LF +:+ acc) "" usable.
Proof.
  unfold feedText, feedLines. rewrite join_terminated by congruence.
  cbn [fold_right]. do 2 f_equal.
  induction usable as [|u us IH]; [reflexivity|].
  cbn [map fold_right]. rewrite IH. reflexivity.
Qed.

(** ** Catalog join *)

Lemma falsy_nonEmptySku (v : variation) :
  falsy ((var_item_variation_data v)?.ivd_sku) = true <-> nonEmptySku v = None.
Proof.
  unfold nonEmptySku.
  destruct ((var_item_variation_data v)?.ivd_sku) as [[|c s]|]; cbn; split; congruence.
Qed.

Lemma usableRow_sku (names : gmap string string) (v : variation) :
  u_sku <$> usableRow names v = nonEmptySku v.
Proof.
  unfold usableRow, nonEmptySku.
  destruct ((var_item_variation_data v)?.ivd_sku) as [[|c s]|]; reflexivity.
Qed.

Lemma usableRow_variationId (names : gmap string string) (v : variation) (u : usable_row) :
  usableRow names v = Some u -> u_variationId u = var_id v.
Proof.
  unfold usableRow. destruct (falsy _); [discriminate|].
  intros [= <-]. reflexivity.
Qed.

Lemma nonEmptySku_nonempty (v : variation) (s : string) : nonEmptySku v = Some s -> s <> "".
Proof.
  unfold nonEmptySku.
  destruct ((var_item_variation_data v)?.ivd_sku) as [[|c s']|]; try discriminate.
  intros [= <-]. discriminate.
Qed.

(** C5.  The skus of the usable rows are exactly the non-empty skus of the
    variations, in order and with their repetitions: a variation without a
    non-empty sku contributes no row, nothing is deduplicated, and every row
    has a non-empty sku and the identifier of its variation. *)
Theorem usableRows_skus (cat : catalog_response) :
  let variations := default [] (cat_objects cat) in
  map u_sku (usableRows cat) = omap nonEmptySku variations
  /\ map u_variationId (usableRows cat) =
     map var_id (filter (fun v => is_Some (nonEmptySku v)) variations)
  /\ Forall (fun u => u_sku u <> "") (usableRows cat).
Proof.
  unfold usableRows. cbv zeta.
  generalize (itemNameById (default [] (cat_related_objects cat))) as names.
  generalize (default [] (cat_objects cat)) as vs.
  intros vs names.
  induction vs as [|v vs (IH1 & IH2 & IH3)]; [repeat split; constructor|].
  cbn [omap list_omap].
  pose proof (usableRow_sku names v) as Hs.
  destruct (usableRow names v) as [u|] eqn:Hu; cbn in Hs.
  - rewrite <- Hs. rewrite filter_cons_True by (rewrite <- Hs; eauto).
    cbn [map]. rewrite IH1, IH2, (usableRow_variationId _ _ _ Hu).
    repeat split. constructor; [|exact IH3].
    eapply nonEmptySku_nonempty. symmetry. exact Hs.
  - rewrite <- Hs. rewrite filter_cons_False by (rewrite <- Hs; intros [? ?]; discriminate).
    auto.
Qed.

Lemma usableRows_none (cat : catalog_response) :
  Forall (fun v => nonEmptySku v = None) (default [] (cat_objects cat)) ->
  usableRows cat = [].
Proof.
  unfold usableRows. cbv zeta.
  generalize (itemNameById (default [] (cat_related_objects cat))) as names.
  intros names. induction (default [] (cat_objects cat)) as [|v vs IH]; [reflexivity|].
  intros H. apply Forall_cons in H as [Hv Hvs]. cbn [omap list_omap].
  pose proof (usableRow_sku names v) as Hs. rewrite Hv in Hs.
  destruct (usableRow names v); [discriminate|]. apply IH. exact Hvs.
Qed.

(** Two variations with the same sku give two rows. *)
Example usableRows_duplicates :
  map u_sku
    (usableRows {| cat_objects := Some [Sample.variation1 "ABC123" "I1" "Regular" None;
                                        Sample.variation1 "ABC123" "I1" "Magnum" None];
                   cat_related_objects := None |})
  = ["ABC123"; "ABC123"].
Proof. reflexivity. Qed.

(** ** The end-to-end scenario *)

Lemma scenario_usable (vid iid : string) :
  usableRows (scenario_cat vid iid) =
  [{| u_sku := "ABC123"; u_name := "Chateau Test"; u_variationId := vid;
      u_price := "25.00"; u_imageUrl := None |}].
Proof.
  unfold usableRows, scenario_cat.
  cbn -[itemNameById usableRow].
  unfold usableRow. cbn -[itemNameById centsToDollars lookup fullName].
  unfold itemNameById. cbn -[centsToDollars lookup insert fullName].
  rewrite lookup_insert_eq. cbn -[centsToDollars fullName].
  reflexivity.
Qed.

Lemma scenario_stock (vid : string) :
  stockByVarId (default [] (inv_counts (scenario_inv vid))) !! vid = Some "7".
Proof.
  unfold stockByVarId, scenario_inv. cbn -[lookup insert NumberToString].
  rewrite lookup_insert_eq. reflexivity.
Qed.

(** C1, as the code has it.  In the scenario (sku ABC123, item "Chateau Test",
    variation "Regular", price 2500, count 7) the file is the header line and
    one data row of fourteen fields: a single empty description field stands
    between the name and the vintage. *)
Theorem scenario_feed (vid iid : string) :
  feedOf (scenario_cat vid iid) (scenario_inv vid) =
  header +:+ LF +:+
  "ABC123|Chateau Test||NV|750ml|25.00|7|https://www.magazzinonyc.com/s/shop?query=Chateau%20Test||Inc.tax|R|Next day||"
  +:+ LF
  /\ SHOP_SEARCH_BASE +:+ encodeQuery "Chateau Test"
     = "https://www.magazzinonyc.com/s/shop?query=Chateau%20Test"
  /\ program Sample.env Sample.square Sample.disk =
     ([catalogFetch "token"; inventoryFetch "token" "L1" ["V1"];
       WriteFile OUT (feedOf Sample.cat Sample.inv);
       ConsoleLog "Wrote winesearcher-feed.txt with 1 rows."], 0).
Proof.
  split; [|split; reflexivity].
  unfold feedOf. rewrite scenario_usable, feedText_unfold. cbn [fold_right].
  unfold feedRow, rowFields, stockOf. cbn [u_variationId u_name u_sku u_price].
  rewrite scenario_stock. reflexivity.
Qed.

(** The row of the specification's scenario has a second empty field after
    the name, fifteen fields in all; the file does not contain it. *)
Lemma scenario_feed_not_as_claimed :
  feedOf Sample.cat Sample.inv <>
  header +:+ LF +:+
  "ABC123|Chateau Test|||NV|750ml|25.00|7|https://www.magazzinonyc.com/s/shop?query=Chateau%20Test||Inc.tax|R|Next day||"
  +:+ LF.
Proof. vm_compute. discriminate. Qed.

(** ** Substrings *)

Lemma startsWith_spec (s t : string) :
  startsWith s t = true <-> exists post : string, s = t +:+ post.
Proof.
  revert s. induction t as [|b t IH]; intros s.
  - destruct s; cbn; split; eauto.
  - destruct s as [|a s]; cbn [startsWith].
    + split; [discriminate | intros [post H]; discriminate].
    + rewrite andb_true_iff, Ascii.eqb_eq, IH. split.
      * intros [-> [post ->]]. exists post. reflexivity.
      * intros [post H]. rewrite app_cons in H. injection H as -> ->. eauto.
Qed.

Lemma Substring_empty (t : string) : Substring t "" -> t = "".
Proof.
  intros (pre & post & H). destruct pre; [|discriminate].
  destruct t; [reflexivity | discriminate].
Qed.

Lemma includes_spec (s t : string) : includes s t = true <-> Substring t s.
Proof.
  induction s as [|a s IH].
  - cbn [includes]. rewrite orb_false_r, startsWith_spec. split.
    + intros [post H]. exists "", post. exact H.
    + intros H. apply Substring_empty in H as ->. exists "". reflexivity.
  - cbn [includes]. rewrite orb_true_iff, startsWith_spec, IH. split.
    + intros [[post H] | (pre & post & H)].
      * exists "", post. exact H.
      * exists (String a pre), post. rewrite app_cons, <- H. reflexivity.
    + intros (pre & post & H). destruct pre as [|b pre].
      * left. exists post. exact H.
      * right. rewrite app_cons in H. injection H as _ H. exists pre, post. exact H.
Qed.

Lemma includes_false (s t : string) : includes s t = false <-> ~ Substring t s.
Proof. rewrite <- includes_spec. destruct (includes s t); split; congruence. Qed.

(** ** The search URL *)

Lemma replaceAll_from_skip (pat rep : string) (k : nat) (s : string) :
  replaceAll_from pat rep k s = replaceAll_from pat rep 0 (dropChars k s).
Proof.
  revert k. induction s as [|c s IH]; intros [|k]; try reflexivity.
  cbn [replaceAll_from dropChars]. apply IH.
Qed.

Lemma dropChars_app (s t : string) : dropChars (String.length s) (s +:+ t) = t.
Proof.
  induction s as [|a s IH]; [destruct t; reflexivity|].
  rewrite app_cons. cbn [String.length dropChars]. exact IH.
Qed.

Lemma dropChars_length (k : nat) (s : string) :
  (String.length (dropChars k s) <= String.length s)%nat.
Proof.
  revert k. induction s as [|c s IH]; intros [|k]; cbn [dropChars String.length]; try lia.
  specialize (IH k). lia.
Qed.

(** Replacing a non-empty literal by itself changes nothing. *)
Lemma replaceAll_same (b : ascii) (pat s : string) :
  replaceAll (String b pat) (String b pat) s = s.
Proof.
  unfold replaceAll.
  remember (String.length s) as n eqn:Hn.
  revert s Hn. induction (lt_wf n) as [n _ IH]. intros s ->.
  destruct s as [|c s]; [reflexivity|].
  cbn [replaceAll_from].
  destruct (startsWith (String c s) (String b pat)) eqn:Hp.
  - apply startsWith_spec in Hp as [post Hp].
    rewrite app_cons in Hp. injection Hp as -> ->.
    cbn [String.length Nat.pred]. rewrite replaceAll_from_skip, dropChars_app.
    rewrite app_cons. f_equal. f_equal.
    eapply IH; [|reflexivity].
    cbn [String.length]. rewrite length_app. lia.
  - f_equal. eapply IH; [|reflexivity]. cbn [String.length]. lia.
Qed.

(** X1.  The [replace] of [encodeQuery] puts back what it finds: the query
    is what [encodeURIComponent] returns. *)
Lemma encodeQuery_encodeURIComponent (q : string) :
  encodeQuery q = encodeURIComponent q.
Proof. apply replaceAll_same. Qed.

(** ** Unit size *)

(** C4.  The name is lower-cased and the rules are tried in the fixed order,
    the first one whose cue occurs in the lower-cased name deciding:
    magnum / 1.5l / 1500, then 375, then 500, then 1l / 1000, then 3l, and
    750ml when no cue occurs. *)
Theorem guessUnitSize_first_match (name : string) :
  let has := fun cue : string => Substring cue (toLowerCase name) in
  let magnum := has "magnum" \/ has "1.5l" \/ has "1500" in
  let litre := has "1l" \/ has "1000" in
  (magnum -> guessUnitSize name = "1.5L Magnum")
  /\ (~ magnum -> has "375" -> guessUnitSize name = "375ml")
  /\ (~ magnum -> ~ has "375" -> has "500" -> guessUnitSize name = "500ml")
  /\ (~ magnum -> ~ has "375" -> ~ has "500" -> litre -> guessUnitSize name = "1L")
  /\ (~ magnum -> ~ has "375" -> ~ has "500" -> ~ litre -> has "3l" ->
      guessUnitSize name = "3L")
  /\ (~ magnum -> ~ has "375" -> ~ has "500" -> ~ litre -> ~ has "3l" ->
      guessUnitSize name = "750ml").
Proof.
  cbv zeta. unfold guessUnitSize.
  repeat match goal with
  | |- context [includes ?n ?cue] =>
      let H := fresh "H" in
      destruct (includes n cue) eqn:H;
      [apply includes_spec in H | apply includes_false in H]
  end; cbn [orb]; repeat split; intros; tauto || reflexivity.
Qed.

Lemma guessUnitSize_first_match_witness :
  guessUnitSize "Magnum 375" = "1.5L Magnum"
  /\ guessUnitSize "Brunello 2016" = "750ml".
Proof.
  split.
  - apply (proj1 (guessUnitSize_first_match "Magnum 375")).
    left. exists "", " 375". reflexivity.
  - apply (proj2 (proj2 (proj2 (proj2 (proj2 (guessUnitSize_first_match "Brunello 2016"))))));
      rewrite <- ?includes_false;
      try reflexivity;
      intros H; repeat destruct H as [H|H];
      apply includes_spec in H; discriminate H.
Defined.

Example guessUnitSize_magnum : guessUnitSize "Magnum 1.5L Reserve" = "1.5L Magnum".
Proof. reflexivity. Qed.

(** ** Pipes in fields *)

Lemma occurrences_app (c : ascii) (s t : string) :
  occurrences c (s +:+ t) = (occurrences c s + occurrences c t)%nat.
Proof.
  induction s as [|a s IH]; [reflexivity|].
  rewrite app_cons. cbn [occurrences]. rewrite IH. lia.
Qed.

Lemma splitOn_length (c : ascii) (s : string) :
  length (splitOn c s) = S (occurrences c s).
Proof.
  induction s as [|a s IH]; [reflexivity|].
  cbn [splitOn occurrences]. destruct (Ascii.eqb a c).
  - cbn [length]. rewrite IH. reflexivity.
  - destruct (splitOn c s); cbn [length] in *; lia.
Qed.

Lemma occurrences_join (c : ascii) (l : list string) :
  occurrences c (join (String c "") l) =
  (list_sum (map (occurrences c) l) + Nat.pred (length l))%nat.
Proof.
  induction l as [|x l IH]; [reflexivity|].
  destruct l as [|y l].
  - cbn [join map list_sum fold_right length Nat.pred]. lia.
  - rewrite join_cons by congruence. rewrite !occurrences_app, IH.
    cbn [map list_sum fold_right length Nat.pred occurrences].
    rewrite Ascii.eqb_refl. lia.
Qed.

Lemma Substring_occurs (c : ascii) (s : string) :
  Substring (String c "") s -> (0 < occurrences c s)%nat.
Proof.
  intros (pre & post & ->). rewrite !occurrences_app.
  cbn [occurrences]. rewrite Ascii.eqb_refl. lia.
Qed.

(** The number of fields a reader splitting on the pipe sees in a row. *)
Lemma feedRow_field_count (stock : gmap string string) (u : usable_row) :
  length (splitOn "|" (feedRow stock u)) =
  (14 + list_sum (map (occurrences "|") (rowFields stock u)))%nat.
Proof.
  unfold feedRow. rewrite splitOn_length.
  change "|"%string with (String "|"%char "") at 1.
  rewrite occurrences_join. unfold rowFields. cbn [length Nat.pred]. lia.
Qed.

(** C10.  The fields are joined as they are: a row whose sku or name
    contains a pipe splits into more than fourteen fields. *)
Theorem feedRow_unescaped_pipe (stock : gmap string string) (u : usable_row) :
  Substring "|" (u_sku u) \/ Substring "|" (u_name u) ->
  (14 < length (splitOn "|" (feedRow stock u)))%nat.
Proof.
  intros H. rewrite feedRow_field_count. unfold rowFields. cbn [map list_sum fold_right].
  destruct H as [H|H]; apply (Substring_occurs "|") in H; lia.
Qed.

Lemma feedRow_unescaped_pipe_witness :
  exists u : usable_row,
    usableRows Sample.pipe_cat = [u]
    /\ (14 < length (splitOn "|" (feedRow (stockByVarId []) u)))%nat.
Proof.
  eexists. split; [vm_compute; reflexivity|].
  apply feedRow_unescaped_pipe. left. exists "AB", "12". reflexivity.
Defined.

(** ** Maps built by a loop of [set] *)

(** After a loop that sets [key x] to [val x] for every kept [x], a key
    holds the value of the last kept element that carries it. *)
Lemma foldl_insert_last {A : Type} (keep : A -> bool) (key val : A -> string)
    (l : list A) (m : gmap string string) (i : string) :
  foldl (fun m x => if keep x then <[key x := val x]> m else m) m l !! i =
  match last (filter (fun x => keep x = true /\ key x = i) l) with
  | Some x => Some (val x)
  | None => m !! i
  end.
Proof.
  revert m. induction l as [|x l IH]; intros m; [reflexivity|].
  cbn [foldl]. rewrite IH.
  destruct (decide (keep x = true /\ key x = i)) as [[Hk Hi]|Hn].
  - rewrite filter_cons_True by auto. rewrite Hk, last_cons.
    destruct (last (filter _ l)); [reflexivity|].
    rewrite <- Hi. apply lookup_insert_eq.
  - rewrite filter_cons_False by exact Hn.
    destruct (last (filter _ l)); [reflexivity|].
    destruct (keep x) eqn:Hk; [|reflexivity].
    apply lookup_insert_ne. intros Hi. apply Hn. auto.
Qed.

Lemma stockByVarId_lookup (counts : list inventory_count) (i : string) :
  stockByVarId counts !! i =
  (fun c => NumberToString (num_or (cnt_quantity c) 0)) <$> lastCount counts i.
Proof.
  unfold stockByVarId, lastCount.
  rewrite (foldl_insert_last (fun _ => true) cnt_catalog_object_id
             (fun c => NumberToString (num_or (cnt_quantity c) 0))).
  rewrite (list_filter_iff _ (fun c => cnt_catalog_object_id c = i)) by (intros; tauto).
  destruct (last _); reflexivity.
Qed.

Lemma itemNameById_lookup (related : list related_object) (i : string) :
  itemNameById related !! i =
  (fun o => truthy_or ((obj_item_data o)?.item_name) "") <$>
  last (filter (fun o => obj_type o = "ITEM" /\ obj_id o = i) related).
Proof.
  unfold itemNameById.
  rewrite (foldl_insert_last (fun o => String.eqb (obj_type o) "ITEM") obj_id
             (fun o => truthy_or ((obj_item_data o)?.item_name) "")).
  rewrite (list_filter_iff _ (fun o => obj_type o = "ITEM" /\ obj_id o = i))
    by (intros; rewrite String.eqb_eq; tauto).
  destruct (last _); reflexivity.
Qed.

Lemma truthy_or_empty (x : option string) : truthy_or x "" = default "" x.
Proof. destruct x as [[|c s]|]; reflexivity. Qed.

(** ** Stock *)

Lemma pretty_Z_of_N (n : N) : pretty (Z.of_N n) = pretty n.
Proof. destruct n; reflexivity. Qed.

Lemma NumberToString_signed (q : Z) :
  NumberToString q =
  if q <? 0 then "-" +:+ pretty (Z.to_N (- q)) else pretty (Z.to_N q).
Proof. destruct q; reflexivity. Qed.

Lemma num_or_zero (x : option safe_int) : num_or x 0 = from_option sval 0 x.
Proof.
  destruct x as [z|]; [|reflexivity]. cbn.
  destruct (Z.eqb_spec (sval z) 0); congruence.
Qed.

(** C2, as the code has it.  A row whose variation has no count in the
    response gets "0".  Otherwise the last count for the variation decides:
    its quantity, zero when absent, is printed as it is, the digits of a
    non-negative quantity (so "0" for zero) and a minus sign before the
    digits of a negative one. *)
Theorem stock_join (counts : list inventory_count) (u : usable_row) :
  stockOf (stockByVarId counts) u =
  match lastCount counts (u_variationId u) with
  | None => "0"
  | Some c =>
      let q := from_option sval 0 (cnt_quantity c) in
      if q <? 0 then "-" +:+ pretty (Z.to_N (- q)) else pretty (Z.to_N q)
  end
  /\ stockOf (stockByVarId [{| cnt_catalog_object_id := u_variationId u;
                               cnt_quantity := Sample.int 0 eq_refl |}]) u = "0".
Proof.
  split; [|unfold stockOf; rewrite stockByVarId_lookup; unfold lastCount;
           rewrite filter_cons_True by reflexivity; reflexivity].
  unfold stockOf. rewrite stockByVarId_lookup.
  destruct (lastCount counts (u_variationId u)) as [c|]; [|reflexivity].
  cbn [fmap option_fmap option_map default from_option id].
  rewrite NumberToString_signed, num_or_zero. reflexivity.
Qed.

(** A count of -3 is written as "-3", which is no numeral of a
    non-negative integer: nothing coerces the quantity. *)
Lemma stock_not_coerced :
  ~ (forall (counts : list inventory_count) (u : usable_row),
       denotesNat (stockOf (stockByVarId counts) u)).
Proof.
  intros H. destruct (H Sample.oversold Sample.row1) as [n Hn].
  assert (Hs : stockOf (stockByVarId Sample.oversold) Sample.row1 = pretty (-3)%Z)
    by (vm_compute; reflexivity).
  rewrite Hs, <- pretty_Z_of_N in Hn. apply (inj pretty) in Hn. lia.
Qed.

Example stock_zero_count :
  stockOf (stockByVarId [{| cnt_catalog_object_id := "V1"; cnt_quantity := Sample.int 0 eq_refl |}])
          Sample.row1 = "0".
Proof. reflexivity. Qed.

Example stock_missing_entry : stockOf (stockByVarId []) Sample.row1 = "0".
Proof. reflexivity. Qed.

(** ** Display names *)

Lemma itemName_parentName (related : list related_object) (v : variation) :
  truthy_or ((var_item_variation_data v)?.ivd_item_id?.(fun i => itemNameById related !! i)) ""
  = parentName related v.
Proof.
  unfold parentName.
  destruct ((var_item_variation_data v)?.ivd_item_id) as [i|]; [|reflexivity].
  cbn [chain]. rewrite itemNameById_lookup.
  destruct (last _) as [o|]; [|reflexivity].
  cbn [fmap option_fmap option_map]. rewrite truthy_or_empty.
  cbn [default from_option id]. apply truthy_or_empty.
Qed.

Lemma fullName_cases (itemName varName : string) :
  fullName itemName varName =
  if decide (varName <> "" /\ toLowerCase varName <> "regular")
  then trim (itemName +:+ " " +:+ varName)
  else trim itemName.
Proof.
  unfold fullName.
  destruct (String.eqb_spec (toLowerCase varName) "regular") as [He|He];
    destruct varName as [|c s]; cbn [truthy andb negb];
    case_decide; try reflexivity; try tauto.
  exfalso. apply H. split; [discriminate | exact He].
Qed.

(** C6, as the code has it.  For a variation with a non-empty sku the
    composed name is the parent item name, a single space and the variation
    name, trimmed, when the variation name is non-empty and not "regular"
    in any letter case; otherwise it is the trimmed parent item name.  The
    row's name is the composed name, or the sku when that is empty, and so
    is never empty. *)
Theorem usableRow_name (related : list related_object) (v : variation) (sku : string) :
  nonEmptySku v = Some sku ->
  let itemName := parentName related v in
  let varName := default "" ((var_item_variation_data v)?.ivd_name) in
  let composed :=
    if decide (varName <> "" /\ toLowerCase varName <> "regular")
    then trim (itemName +:+ " " +:+ varName)
    else trim itemName in
  exists u : usable_row,
    usableRow (itemNameById related) v = Some u
    /\ u_sku u = sku
    /\ u_name u = (if decide (composed = "") then sku else composed)
    /\ u_name u <> "".
Proof.
  intros Hsku. cbv zeta.
  pose proof (nonEmptySku_nonempty _ _ Hsku) as Hne.
  unfold usableRow. unfold nonEmptySku in Hsku.
  destruct ((var_item_variation_data v)?.ivd_sku) as [[|c s]|]; try discriminate.
  injection Hsku as <-. cbn [falsy truthy_or].
  eexists. split; [reflexivity|]. cbn [u_sku u_name].
  rewrite itemName_parentName, truthy_or_empty, fullName_cases.
  split; [reflexivity|].
  set (composed := if decide _ then _ else _).
  destruct composed as [|a r]; case_decide; try congruence; split; try reflexivity;
    discriminate.
Qed.

Lemma usableRow_name_witness :
  exists u : usable_row,
    usableRows Sample.magnum_cat = [u] /\ u_name u = "Chateau Test Magnum".
Proof.
  destruct (usableRow_name [Sample.item1 "Chateau Test"]
              (Sample.variation1 "ABC123" "I1" "Magnum" None) "ABC123" eq_refl)
    as (u & Hu & _ & Hname & _).
  exists u. split.
  - unfold usableRows, Sample.magnum_cat.
    cbn [cat_objects cat_related_objects default from_option id omap list_omap].
    rewrite Hu. reflexivity.
  - rewrite Hname. vm_compute. reflexivity.
Defined.

(** Without the space the composed name would differ. *)
Lemma name_not_unseparated :
  map u_name (usableRows Sample.magnum_cat)
  <> [fullName_unseparated "Chateau Test" "Magnum"].
Proof. vm_compute. discriminate. Qed.

(** ** Errors *)

Lemma squareFetch_result {A : Type} (TOKEN : string) (reply : option body -> fetched A)
    (path : string) (b : option body) :
  squareFetch TOKEN reply path b =
  ([Fetch ("https://connect.squareup.com" +:+ path)
      (if b is Some _ then "POST" else "GET") ("Bearer " +:+ TOKEN)
      SQUARE_VERSION "application/json" b],
   match reply b with
   | Rejected e => inl e
   | Resolved res =>
       if res_ok res then res_parsed res
       else inl ("Square API " +:+ pretty (res_status res) +:+ ": " +:+ res_text res)
   end).
Proof.
  unfold squareFetch. destruct (reply b) as [e|res]; [reflexivity|].
  destruct (res_ok res); cbn [negb]; [destruct (res_parsed res)|]; reflexivity.
Qed.

(** Every request is answered or fails, and never both. *)
Lemma answers_or_fails {A : Type} (reply : option body -> fetched A) (b : option body) :
  (exists v : A, answers reply b v) \/ (exists e : string, fails reply b e).
Proof.
  unfold answers, fails. destruct (reply b) as [e|res] eqn:Hr.
  - right. exists e. left. reflexivity.
  - destruct (res_ok res) eqn:Hok.
    + destruct (res_parsed res) as [e|v] eqn:Hp.
      * right. exists e. right. right. exists res. auto.
      * left. exists v, res. auto.
    + right. eexists. right. left. exists res. auto.
Qed.

Lemma squareFetch_answers {A : Type} (TOKEN : string) (reply : option body -> fetched A)
    (path : string) (b : option body) (v : A) :
  answers reply b v -> snd (squareFetch TOKEN reply path b) = inr v.
Proof.
  intros (res & Hr & Hok & Hp). rewrite squareFetch_result. cbn [snd].
  rewrite Hr, Hok, Hp. reflexivity.
Qed.

Lemma squareFetch_fails {A : Type} (TOKEN : string) (reply : option body -> fetched A)
    (path : string) (b : option body) (e : string) :
  fails reply b e -> snd (squareFetch TOKEN reply path b) = inl e.
Proof.
  rewrite squareFetch_result. cbn [snd].
  intros [Hr | [(res & Hr & Hok & ->) | (res & Hr & Hok & Hp)]]; rewrite Hr; try reflexivity.
  - rewrite Hok. reflexivity.
  - rewrite Hok, Hp. reflexivity.
Qed.

Lemma main_catalog_fails (TOKEN LOCATION_ID : string) (sq : remote) (fs : file_system)
    (e : string) :
  fails (catalog_search sq) catalogBody e ->
  main TOKEN LOCATION_ID sq fs = ([catalogFetch TOKEN], inl e).
Proof.
  intros H. apply (squareFetch_fails TOKEN _ "/v2/catalog/search") in H.
  unfold main. fold catalogBody. rewrite squareFetch_result in *. cbn [snd] in H.
  rewrite H. reflexivity.
Qed.

Lemma main_catalog_null (TOKEN LOCATION_ID : string) (sq : remote) (fs : file_system) :
  answers (catalog_search sq) catalogBody None ->
  main TOKEN LOCATION_ID sq fs = ([catalogFetch TOKEN], inl (nullProperty "objects")).
Proof.
  intros H. apply (squareFetch_answers TOKEN _ "/v2/catalog/search") in H.
  unfold main. fold catalogBody. rewrite squareFetch_result in *. cbn [snd] in H.
  rewrite H. reflexivity.
Qed.

Lemma main_inventory_fails (TOKEN LOCATION_ID : string) (sq : remote) (fs : file_system)
    (cat : catalog_response) (e : string) :
  answers (catalog_search sq) catalogBody (Some cat) ->
  fails (batch_retrieve_counts sq) (inventoryBody LOCATION_ID cat) e ->
  main TOKEN LOCATION_ID sq fs =
  ([catalogFetch TOKEN;
    inventoryFetch TOKEN LOCATION_ID (map u_variationId (usableRows cat))], inl e).
Proof.
  intros H1 H2.
  apply (squareFetch_answers TOKEN _ "/v2/catalog/search") in H1.
  apply (squareFetch_fails TOKEN _ "/v2/inventory/batch-retrieve-counts") in H2.
  unfold main. fold catalogBody. rewrite squareFetch_result in *. cbn [snd] in H1.
  rewrite H1. cbn [mbind M_bind notNull mret M_ret app].
  fold (inventoryBody LOCATION_ID cat).
  rewrite squareFetch_result in *. cbn [snd] in H2. rewrite H2. reflexivity.
Qed.

Lemma main_inventory_null (TOKEN LOCATION_ID : string) (sq : remote) (fs : file_system)
    (cat : catalog_response) :
  answers (catalog_search sq) catalogBody (Some cat) ->
  answers (batch_retrieve_counts sq) (inventoryBody LOCATION_ID cat) None ->
  main TOKEN LOCATION_ID sq fs =
  ([catalogFetch TOKEN;
    inventoryFetch TOKEN LOCATION_ID (map u_variationId (usableRows cat))],
   inl (nullProperty "counts")).
Proof.
  intros H1 H2.
  apply (squareFetch_answers TOKEN _ "/v2/catalog/search") in H1.
  apply (squareFetch_answers TOKEN _ "/v2/inventory/batch-retrieve-counts") in H2.
  unfold main. fold catalogBody. rewrite squareFetch_result in *. cbn [snd] in H1.
  rewrite H1. cbn [mbind M_bind notNull mret M_ret app].
  fold (inventoryBody LOCATION_ID cat).
  rewrite squareFetch_result in *. cbn [snd] in H2. rewrite H2. reflexivity.
Qed.

(** With both requests answered the run reaches the write, and the file
    system decides how it ends. *)
Lemma main_reaches_write (TOKEN LOCATION_ID : string) (sq : remote) (fs : file_system)
    (cat : catalog_response) (inv : inventory_response) :
  answers (catalog_search sq) catalogBody (Some cat) ->
  answers (batch_retrieve_counts sq) (inventoryBody LOCATION_ID cat) (Some inv) ->
  main TOKEN LOCATION_ID sq fs =
  match fs_writeFileSync fs OUT (feedOf cat inv) with
  | Some e =>
      ([catalogFetch TOKEN;
        inventoryFetch TOKEN LOCATION_ID (map u_variationId (usableRows cat));
        WriteFile OUT (feedOf cat inv)], inl e)
  | None =>
      ([catalogFetch TOKEN;
        inventoryFetch TOKEN LOCATION_ID (map u_variationId (usableRows cat));
        WriteFile OUT (feedOf cat inv);
        ConsoleLog ("Wrote " +:+ OUT +:+ " with "
                    +:+ pretty (length (usableRows cat)) +:+ " rows.")], inr tt)
  end.
Proof.
  intros H1 H2.
  apply (squareFetch_answers TOKEN _ "/v2/catalog/search") in H1.
  apply (squareFetch_answers TOKEN _ "/v2/inventory/batch-retrieve-counts") in H2.
  unfold main. fold catalogBody. rewrite squareFetch_result in *. cbn [snd] in H1.
  rewrite H1. cbn [mbind M_bind notNull mret M_ret app].
  fold (inventoryBody LOCATION_ID cat).
  rewrite squareFetch_result in *. cbn [snd] in H2. rewrite H2.
  cbn [mbind M_bind notNull mret M_ret app]. unfold writeFileSync. cbv zeta.
  change (feedText (stockByVarId (default [] (inv_counts inv))) (usableRows cat))
    with (feedOf cat inv).
  destruct (fs_writeFileSync fs OUT (feedOf cat inv)); reflexivity.
Qed.

Lemma program_run (env : process_env) (sq : remote) (fs : file_system) :
  run env sq fs (fst (program env sq fs)) (snd (program env sq fs)).
Proof.
  unfold program.
  set (TOKEN := truthy_or (SQUARE_ACCESS_TOKEN env) "").
  set (LOCATION_ID := truthy_or (SQUARE_LOCATION_ID env) "").
  destruct (falsy (SQUARE_ACCESS_TOKEN env) || falsy (SQUARE_LOCATION_ID env)) eqn:Hc.
  { apply run_no_credentials. apply orb_true_iff in Hc. exact Hc. }
  assert (Hn : ~ credentialsMissing env).
  { apply orb_false_iff in Hc as [Ht Hl]. intros [H|H]; congruence. }
  destruct (answers_or_fails (catalog_search sq) catalogBody) as [[[cat|] H1]|[e H1]].
  3: { rewrite (main_catalog_fails TOKEN LOCATION_ID sq fs e H1).
       apply run_catalog_fails; assumption. }
  2: { rewrite (main_catalog_null TOKEN LOCATION_ID sq fs H1).
       apply run_catalog_null; assumption. }
  destruct (answers_or_fails (batch_retrieve_counts sq) (inventoryBody LOCATION_ID cat))
    as [[[inv|] H2]|[e H2]].
  3: { rewrite (main_inventory_fails TOKEN LOCATION_ID sq fs cat e H1 H2).
       apply (run_inventory_fails env sq fs cat e); assumption. }
  2: { rewrite (main_inventory_null TOKEN LOCATION_ID sq fs cat H1 H2).
       apply (run_inventory_null env sq fs cat); assumption. }
  rewrite (main_reaches_write TOKEN LOCATION_ID sq fs cat inv H1 H2).
  destruct (fs_writeFileSync fs OUT (feedOf cat inv)) as [e|] eqn:Hw.
  - apply (run_write_throws env sq fs cat inv e); assumption.
  - apply (run_written env sq fs cat inv); assumption.
Qed.

Lemma program_no_credentials (env : process_env) (sq : remote) (fs : file_system) :
  credentialsMissing env ->
  program env sq fs =
  ([Uncaught "Missing SQUARE_ACCESS_TOKEN or SQUARE_LOCATION_ID secrets."], 1).
Proof.
  intros Hm. unfold program. unfold credentialsMissing in Hm.
  apply orb_true_iff in Hm. rewrite Hm. reflexivity.
Qed.

Lemma credentials_present (env : process_env) :
  ~ credentialsMissing env ->
  falsy (SQUARE_ACCESS_TOKEN env) || falsy (SQUARE_LOCATION_ID env) = false.
Proof.
  unfold credentialsMissing. intros Hn.
  destruct (falsy (SQUARE_ACCESS_TOKEN env)), (falsy (SQUARE_LOCATION_ID env));
    try reflexivity; exfalso; apply Hn; auto.
Qed.

Lemma program_catalog_fails (env : process_env) (sq : remote) (fs : file_system)
    (e : string) :
  ~ credentialsMissing env ->
  fails (catalog_search sq) catalogBody e ->
  program env sq fs =
  ([catalogFetch (truthy_or (SQUARE_ACCESS_TOKEN env) ""); ConsoleError e], 1).
Proof.
  intros Hn He. unfold program. rewrite (credentials_present env Hn).
  rewrite (main_catalog_fails _ _ sq fs e He). reflexivity.
Qed.

Lemma program_inventory_fails (env : process_env) (sq : remote) (fs : file_system)
    (cat : catalog_response) (e : string) :
  ~ credentialsMissing env ->
  answers (catalog_search sq) catalogBody (Some cat) ->
  fails (batch_retrieve_counts sq)
    (inventoryBody (truthy_or (SQUARE_LOCATION_ID env) "") cat) e ->
  program env sq fs =
  ([catalogFetch (truthy_or (SQUARE_ACCESS_TOKEN env) "");
    inventoryFetch (truthy_or (SQUARE_ACCESS_TOKEN env) "")
      (truthy_or (SQUARE_LOCATION_ID env) "") (map u_variationId (usableRows cat));
    ConsoleError e], 1).
Proof.
  intros Hn Ha He. unfold program. rewrite (credentials_present env Hn).
  rewrite (main_inventory_fails _ _ sq fs cat e Ha He). reflexivity.
Qed.

Lemma program_catalog_null (env : process_env) (sq : remote) (fs : file_system) :
  ~ credentialsMissing env ->
  answers (catalog_search sq) catalogBody None ->
  program env sq fs =
  ([catalogFetch (truthy_or (SQUARE_ACCESS_TOKEN env) "");
    ConsoleError (nullProperty "objects")], 1).
Proof.
  intros Hn Ha. unfold program. rewrite (credentials_present env Hn).
  rewrite (main_catalog_null _ _ sq fs Ha). reflexivity.
Qed.

Lemma program_inventory_null (env : process_env) (sq : remote) (fs : file_system)
    (cat : catalog_response) :
  ~ credentialsMissing env ->
  answers (catalog_search sq) catalogBody (Some cat) ->
  answers (batch_retrieve_counts sq)
    (inventoryBody (truthy_or (SQUARE_LOCATION_ID env) "") cat) None ->
  program env sq fs =
  ([catalogFetch (truthy_or (SQUARE_ACCESS_TOKEN env) "");
    inventoryFetch (truthy_or (SQUARE_ACCESS_TOKEN env) "")
      (truthy_or (SQUARE_LOCATION_ID env) "") (map u_variationId (usableRows cat));
    ConsoleError (nullProperty "counts")], 1).
Proof.
  intros Hn Ha Hi. unfold program. rewrite (credentials_present env Hn).
  rewrite (main_inventory_null _ _ sq fs cat Ha Hi). reflexivity.
Qed.

Lemma program_reaches_write (env : process_env) (sq : remote) (fs : file_system)
    (cat : catalog_response) (inv : inventory_response) :
  ~ credentialsMissing env ->
  answers (catalog_search sq) catalogBody (Some cat) ->
  answers (batch_retrieve_counts sq)
    (inventoryBody (truthy_or (SQUARE_LOCATION_ID env) "") cat) (Some inv) ->
  program env sq fs =
  match fs_writeFileSync fs OUT (feedOf cat inv) with
  | Some e =>
      ([catalogFetch (truthy_or (SQUARE_ACCESS_TOKEN env) "");
        inventoryFetch (truthy_or (SQUARE_ACCESS_TOKEN env) "")
          (truthy_or (SQUARE_LOCATION_ID env) "") (map u_variationId (usableRows cat));
        WriteFile OUT (feedOf cat inv);
        ConsoleError e], 1)
  | None =>
      ([catalogFetch (truthy_or (SQUARE_ACCESS_TOKEN env) "");
        inventoryFetch (truthy_or (SQUARE_ACCESS_TOKEN env) "")
          (truthy_or (SQUARE_LOCATION_ID env) "") (map u_variationId (usableRows cat));
        WriteFile OUT (feedOf cat inv);
        ConsoleLog ("Wrote " +:+ OUT +:+ " with "
                    +:+ pretty (length (usableRows cat)) +:+ " rows.")], 0)
  end.
Proof.
  intros Hn Ha Hi. unfold program. rewrite (credentials_present env Hn).
  rewrite (main_reaches_write _ _ sq fs cat inv Ha Hi).
  destruct (fs_writeFileSync fs OUT (feedOf cat inv)); reflexivity.
Qed.

Lemma WriteFile_in (path content : string) (l : list event) :
  WriteFile path content ∈ l -> In (WriteFile path content) l.
Proof. apply list_elem_of_In. Qed.

(** A write on the trace of a run is the write of the whole feed, the
    only one, and if it throws the run ends with its error. *)
Lemma run_write (env : process_env) (sq : remote) (fs : file_system)
    (trace : list event) (status : Z) (path content : string) :
  run env sq fs trace status ->
  WriteFile path content ∈ trace ->
  path = "winesearcher-feed.txt"
  /\ filter (fun ev => isWrite ev = true) trace = [WriteFile path content]
  /\ exists (cat : catalog_response) (inv : inventory_response),
       answers (catalog_search sq) catalogBody (Some cat)
       /\ answers (batch_retrieve_counts sq)
            (inventoryBody (truthy_or (SQUARE_LOCATION_ID env) "") cat) (Some inv)
       /\ content = feedOf cat inv
       /\ forall e : string,
            fs_writeFileSync fs path content = Some e ->
            status = 1
            /\ trace =
               [catalogFetch (truthy_or (SQUARE_ACCESS_TOKEN env) "");
                inventoryFetch (truthy_or (SQUARE_ACCESS_TOKEN env) "")
                  (truthy_or (SQUARE_LOCATION_ID env) "")
                  (map u_variationId (usableRows cat));
                WriteFile "winesearcher-feed.txt" (feedOf cat inv);
                ConsoleError e].
Proof.
  intros Hr Hin. apply WriteFile_in in Hin.
  destruct Hr as [Hm|e' Hn He|Hn Ha|cat e' Hn Ha He|cat Hn Ha Hi
                  |cat inv e' Hn Ha Hi Hw|cat inv Hn Ha Hi Hw];
    unfold catalogFetch, inventoryFetch in Hin; simpl In in Hin;
    repeat (destruct Hin as [Hin|Hin]; try discriminate Hin); try contradiction;
    injection Hin as <- <-; (split; [reflexivity|]); (split; [reflexivity|]);
    exists cat, inv; (split; [exact Ha|]); (split; [exact Hi|]); (split; [reflexivity|]);
    intros err Hfs.
  - change "winesearcher-feed.txt" with OUT in Hfs. rewrite Hw in Hfs.
    injection Hfs as <-. split; reflexivity.
  - change "winesearcher-feed.txt" with OUT in Hfs. rewrite Hw in Hfs. discriminate Hfs.
Qed.

(** A run with status 0 is the run with both answers and a write that
    returned. *)
Lemma run_status_0 (env : process_env) (sq : remote) (fs : file_system)
    (trace : list event) (status : Z) :
  run env sq fs trace status ->
  status = 0 ->
  exists (cat : catalog_response) (inv : inventory_response),
    answers (catalog_search sq) catalogBody (Some cat)
    /\ answers (batch_retrieve_counts sq)
         (inventoryBody (truthy_or (SQUARE_LOCATION_ID env) "") cat) (Some inv)
    /\ fs_writeFileSync fs "winesearcher-feed.txt" (feedOf cat inv) = None
    /\ trace =
       [catalogFetch (truthy_or (SQUARE_ACCESS_TOKEN env) "");
        inventoryFetch (truthy_or (SQUARE_ACCESS_TOKEN env) "")
          (truthy_or (SQUARE_LOCATION_ID env) "") (map u_variationId (usableRows cat));
        WriteFile "winesearcher-feed.txt" (feedOf cat inv);
        ConsoleLog ("Wrote winesearcher-feed.txt with "
                    +:+ pretty (length (usableRows cat)) +:+ " rows.")].
Proof.
  intros Hr. destruct Hr as [Hm|e' Hn He|Hn Ha|cat e' Hn Ha He|cat Hn Ha Hi
                             |cat inv e' Hn Ha Hi Hw|cat inv Hn Ha Hi Hw]; try discriminate.
  intros _. exists cat, inv. repeat split; assumption || reflexivity.
Qed.

(** A run that does not end with status 0 ends with status 1 and the
    error printed last. *)
Lemma run_status_1 (env : process_env) (sq : remote) (fs : file_system)
    (trace : list event) (status : Z) :
  run env sq fs trace status ->
  status = 0
  \/ status = 1
     /\ exists (pre : list event) (e : string),
          trace = pre ++ [ConsoleError e] \/ trace = [Uncaught e].
Proof.
  intros Hr. destruct Hr; [right|right|right|right|right|right|left; reflexivity];
    (split; [reflexivity|]).
  - eexists [], _. right. reflexivity.
  - eexists [_], _. left. reflexivity.
  - eexists [_], _. left. reflexivity.
  - eexists [_; _], _. left. reflexivity.
  - eexists [_; _], _. left. reflexivity.
  - eexists [_; _; _], _. left. reflexivity.
Qed.

(** The writes of a run: none, or the one write of the whole feed. *)
Lemma run_writes (env : process_env) (sq : remote) (fs : file_system)
    (trace : list event) (status : Z) :
  run env sq fs trace status ->
  filter (fun ev => isWrite ev = true) trace = []
  \/ exists (cat : catalog_response) (inv : inventory_response),
       answers (catalog_search sq) catalogBody (Some cat)
       /\ answers (batch_retrieve_counts sq)
            (inventoryBody (truthy_or (SQUARE_LOCATION_ID env) "") cat) (Some inv)
       /\ filter (fun ev => isWrite ev = true) trace
          = [WriteFile "winesearcher-feed.txt" (feedOf cat inv)].
Proof.
  intros Hr. destruct Hr as [Hm|e' Hn He|Hn Ha|cat e' Hn Ha He|cat Hn Ha Hi
                             |cat inv e' Hn Ha Hi Hw|cat inv Hn Ha Hi Hw];
    try (left; reflexivity); right; exists cat, inv; auto.
Qed.

(** C9.  Missing credentials end the program with one uncaught error, before
    any request and any write.  A request that fails (a rejected [fetch], a
    non-success status, whose error carries the status code and the raw body,
    or a body that does not parse) is not retried and its error is not caught
    in [main]: the run ends there, the error is printed and the exit status is
    1, with no write.  A body that is [null] ends the run in the same way with
    the TypeError of the first property read, and so does a write that throws,
    after the call of the write.  The writes of a run are none, or the one
    write of the whole feed built from the two answers, and a run ends with
    status 0 only after both answers and a write that returned. *)
Theorem errors_propagate (env : process_env) (sq : remote) (fs : file_system) :
  let TOKEN := truthy_or (SQUARE_ACCESS_TOKEN env) "" in
  let LOCATION_ID := truthy_or (SQUARE_LOCATION_ID env) "" in
  (credentialsMissing env ->
     program env sq fs =
     ([Uncaught "Missing SQUARE_ACCESS_TOKEN or SQUARE_LOCATION_ID secrets."], 1))
  /\ (forall (A : Type) (reply : option body -> fetched A) (path : string)
             (b : option body) (res : response A),
        reply b = Resolved res ->
        res_ok res = false ->
        squareFetch TOKEN reply path b =
        ([Fetch ("https://connect.squareup.com" +:+ path)
            (if b is Some _ then "POST" else "GET") ("Bearer " +:+ TOKEN)
            "2024-01-18" "application/json" b],
         inl ("Square API " +:+ pretty (res_status res) +:+ ": " +:+ res_text res)))
  /\ (forall e : string,
        ~ credentialsMissing env ->
        fails (catalog_search sq) catalogBody e ->
        program env sq fs = ([catalogFetch TOKEN; ConsoleError e], 1))
  /\ (~ credentialsMissing env ->
      answers (catalog_search sq) catalogBody None ->
      program env sq fs =
      ([catalogFetch TOKEN;
        ConsoleError "Cannot read properties of null (reading 'objects')"], 1))
  /\ (forall (cat : catalog_response) (e : string),
        ~ credentialsMissing env ->
        answers (catalog_search sq) catalogBody (Some cat) ->
        fails (batch_retrieve_counts sq) (inventoryBody LOCATION_ID cat) e ->
        program env sq fs =
        ([catalogFetch TOKEN;
          inventoryFetch TOKEN LOCATION_ID (map u_variationId (usableRows cat));
          ConsoleError e], 1))
  /\ (forall cat : catalog_response,
        ~ credentialsMissing env ->
        answers (catalog_search sq) catalogBody (Some cat) ->
        answers (batch_retrieve_counts sq) (inventoryBody LOCATION_ID cat) None ->
        program env sq fs =
        ([catalogFetch TOKEN;
          inventoryFetch TOKEN LOCATION_ID (map u_variationId (usableRows cat));
          ConsoleError "Cannot read properties of null (reading 'counts')"], 1))
  /\ (forall (path content e : string),
        WriteFile path content ∈ fst (program env sq fs) ->
        fs_writeFileSync fs path content = Some e ->
        snd (program env sq fs) = 1
        /\ exists (cat : catalog_response) (inv : inventory_response),
             answers (catalog_search sq) catalogBody (Some cat)
             /\ answers (batch_retrieve_counts sq) (inventoryBody LOCATION_ID cat) (Some inv)
             /\ fst (program env sq fs) =
                [catalogFetch TOKEN;
                 inventoryFetch TOKEN LOCATION_ID (map u_variationId (usableRows cat));
                 WriteFile "winesearcher-feed.txt" (feedOf cat inv);
                 ConsoleError e])
  /\ (forall (path content : string),
        WriteFile path content ∈ fst (program env sq fs) ->
        path = "winesearcher-feed.txt"
        /\ filter (fun ev => isWrite ev = true) (fst (program env sq fs))
           = [WriteFile path content]
        /\ exists (cat : catalog_response) (inv : inventory_response),
             answers (catalog_search sq) catalogBody (Some cat)
             /\ answers (batch_retrieve_counts sq) (inventoryBody LOCATION_ID cat) (Some inv)
             /\ content = feedOf cat inv)
  /\ (filter (fun ev => isWrite ev = true) (fst (program env sq fs)) = []
      \/ exists (cat : catalog_response) (inv : inventory_response),
           answers (catalog_search sq) catalogBody (Some cat)
           /\ answers (batch_retrieve_counts sq) (inventoryBody LOCATION_ID cat) (Some inv)
           /\ filter (fun ev => isWrite ev = true) (fst (program env sq fs))
              = [WriteFile "winesearcher-feed.txt" (feedOf cat inv)])
  /\ (snd (program env sq fs) = 0 ->
      exists (cat : catalog_response) (inv : inventory_response),
        answers (catalog_search sq) catalogBody (Some cat)
        /\ answers (batch_retrieve_counts sq) (inventoryBody LOCATION_ID cat) (Some inv)
        /\ fs_writeFileSync fs "winesearcher-feed.txt" (feedOf cat inv) = None
        /\ fst (program env sq fs) =
           [catalogFetch TOKEN;
            inventoryFetch TOKEN LOCATION_ID (map u_variationId (usableRows cat));
            WriteFile "winesearcher-feed.txt" (feedOf cat inv);
            ConsoleLog ("Wrote winesearcher-feed.txt with "
                        +:+ pretty (length (usableRows cat)) +:+ " rows.")])
  /\ (snd (program env sq fs) = 0
      \/ snd (program env sq fs) = 1
         /\ exists (pre : list event) (e : string),
              fst (program env sq fs) = pre ++ [ConsoleError e]
              \/ fst (program env sq fs) = [Uncaught e]).
Proof.
  cbv zeta. pose proof (program_run env sq fs) as Hrun.
  split; [apply program_no_credentials|].
  split.
  { intros A reply path b res Hr Hok. rewrite squareFetch_result, Hr, Hok. reflexivity. }
  split; [intros e Hn He; apply program_catalog_fails; assumption|].
  split; [intros Hn Ha; apply program_catalog_null; assumption|].
  split; [intros cat e Hn Ha He; apply program_inventory_fails; assumption|].
  split; [intros cat Hn Ha Hi; apply program_inventory_null; assumption|].
  split.
  { intros path content e Hin Hfs.
    destruct (run_write _ _ _ _ _ _ _ Hrun Hin) as (_ & _ & cat & inv & Ha & Hi & _ & Hthrow).
    destruct (Hthrow e Hfs) as [Hs Ht]. split; [exact Hs|]. exists cat, inv. auto. }
  split.
  { intros path content Hin.
    destruct (run_write _ _ _ _ _ _ _ Hrun Hin) as (Hp & Hf & cat & inv & Ha & Hi & Hc & _).
    split; [exact Hp|]. split; [exact Hf|]. exists cat, inv. auto. }
  split; [exact (run_writes _ _ _ _ _ Hrun)|].
  split; [apply (run_status_0 _ _ _ _ _ Hrun) | apply (run_status_1 _ _ _ _ _ Hrun)].
Qed.

Lemma errors_propagate_witness :
  program Sample.env_no_location Sample.square Sample.disk
    = ([Uncaught "Missing SQUARE_ACCESS_TOKEN or SQUARE_LOCATION_ID secrets."], 1)
  /\ program Sample.env Sample.square_refusing Sample.disk
     = ([catalogFetch "token"; ConsoleError "Square API 401: denied"], 1)
  /\ program Sample.env Sample.square_null Sample.disk
     = ([catalogFetch "token";
         ConsoleError "Cannot read properties of null (reading 'objects')"], 1)
  /\ program Sample.env Sample.square_offline_counts Sample.disk
     = ([catalogFetch "token"; inventoryFetch "token" "L1" ["V1"];
         ConsoleError "fetch failed"], 1)
  /\ program Sample.env Sample.square_null_counts Sample.disk
     = ([catalogFetch "token"; inventoryFetch "token" "L1" ["V1"];
         ConsoleError "Cannot read properties of null (reading 'counts')"], 1)
  /\ snd (program Sample.env Sample.square Sample.disk_full) = 1.
Proof.
  split; [|split; [|split; [|split; [|split]]]].
  - apply (proj1 (errors_propagate Sample.env_no_location Sample.square Sample.disk)).
    right. reflexivity.
  - destruct (errors_propagate Sample.env Sample.square_refusing Sample.disk)
      as (_ & _ & H & _).
    apply H; [intros [E|E]; discriminate E|].
    right. left. eexists. repeat split; reflexivity.
  - destruct (errors_propagate Sample.env Sample.square_null Sample.disk)
      as (_ & _ & _ & H & _).
    apply H; [intros [E|E]; discriminate E|].
    eexists. repeat split; reflexivity.
  - destruct (errors_propagate Sample.env Sample.square_offline_counts Sample.disk)
      as (_ & _ & _ & _ & H & _).
    apply (H Sample.cat); [intros [E|E]; discriminate E| |].
    + eexists. repeat split; reflexivity.
    + left. reflexivity.
  - destruct (errors_propagate Sample.env Sample.square_null_counts Sample.disk)
      as (_ & _ & _ & _ & _ & H & _).
    apply (H Sample.cat); [intros [E|E]; discriminate E| |];
      eexists; repeat split; reflexivity.
  - destruct (errors_propagate Sample.env Sample.square Sample.disk_full)
      as (_ & _ & _ & _ & _ & _ & H & _).
    apply (H OUT (feedOf Sample.cat Sample.inv) "ENOSPC: no space left on device, write");
      [|reflexivity].
    apply list_elem_of_In. vm_compute. right. right. left. reflexivity.
Defined.

(** ** The written file *)

(** C7.  The text handed to the write is the fixed header line, a line feed
    (the code unit 10), and then every row followed by one line feed: lines
    are separated by single line feeds and the text ends with one; with no
    usable row it is the header and a line feed.  This text is what the
    program writes: a write on its trace goes to winesearcher-feed.txt and
    carries that text for the rows of the catalog answer and the counts of the
    inventory answer, a run that ends with status 0 has made that write, and a
    catalog without usable rows gets the header and the line feed written. *)
Theorem feed_header_and_newlines (stock : gmap string string) (usable : list usable_row) :
  feedText stock usable =
    "SKU|name|description|vintage|unit-size|price|stock|url|min-order|tax|offer-type|delivery-time|LWIN|imageurl"
    +:+ String "010" (fold_right (fun u acc => feedRow stock u +:+ String "010" acc) "" usable)
  /\ feedText stock [] =
     "SKU|name|description|vintage|unit-size|price|stock|url|min-order|tax|offer-type|delivery-time|LWIN|imageurl"
     +:+ String "010" ""
  /\ (forall (env : process_env) (sq : remote) (fs : file_system) (path content : string),
        WriteFile path content ∈ fst (program env sq fs) ->
        path = "winesearcher-feed.txt"
        /\ exists (cat : catalog_response) (inv : inventory_response),
             answers (catalog_search sq) catalogBody (Some cat)
             /\ answers (batch_retrieve_counts sq)
                  (inventoryBody (truthy_or (SQUARE_LOCATION_ID env) "") cat) (Some inv)
             /\ content =
                feedText (stockByVarId (default [] (inv_counts inv))) (usableRows cat))
  /\ (forall (env : process_env) (sq : remote) (fs : file_system),
        snd (program env sq fs) = 0 ->
        exists content : string,
          WriteFile "winesearcher-feed.txt" content ∈ fst (program env sq fs))
  /\ (forall (env : process_env) (sq : remote) (fs : file_system)
             (cat : catalog_response) (inv : inventory_response),
        ~ credentialsMissing env ->
        answers (catalog_search sq) catalogBody (Some cat) ->
        Forall (fun v => nonEmptySku v = None) (default [] (cat_objects cat)) ->
        answers (batch_retrieve_counts sq)
          (Some (BatchRetrieveCounts [] [truthy_or (SQUARE_LOCATION_ID env) ""] ["IN_STOCK"]))
          (Some inv) ->
        exists rest : list event,
          fst (program env sq fs) =
          [catalogFetch (truthy_or (SQUARE_ACCESS_TOKEN env) "");
           inventoryFetch (truthy_or (SQUARE_ACCESS_TOKEN env) "")
             (truthy_or (SQUARE_LOCATION_ID env) "") [];
           WriteFile "winesearcher-feed.txt"
             ("SKU|name|description|vintage|unit-size|price|stock|url|min-order|tax|offer-type|delivery-time|LWIN|imageurl"
              +:+ String "010" "")] ++ rest).
Proof.
  split; [exact (feedText_unfold stock usable)|].
  split; [reflexivity|].
  split.
  { intros env sq fs path content Hin.
    destruct (run_write _ _ _ _ _ _ _ (program_run env sq fs) Hin)
      as (Hp & _ & cat & inv & Ha & Hi & Hc & _).
    split; [exact Hp|]. exists cat, inv. auto. }
  split.
  { intros env sq fs Hs.
    destruct (run_status_0 _ _ _ _ _ (program_run env sq fs) Hs)
      as (cat & inv & _ & _ & _ & Ht).
    exists (feedOf cat inv). rewrite Ht. apply list_elem_of_In. simpl. auto. }
  intros env sq fs cat inv Hn Ha Hnone Hi.
  pose proof (usableRows_none cat Hnone) as Hu.
  rewrite (program_reaches_write env sq fs cat inv Hn Ha)
    by (unfold inventoryBody; rewrite Hu; exact Hi).
  unfold feedOf. rewrite Hu.
  destruct (fs_writeFileSync fs OUT _); eexists; reflexivity.
Qed.

Lemma feed_header_and_newlines_witness :
  exists rest : list event,
    fst (program Sample.env Sample.square_empty Sample.disk) =
    [catalogFetch "token"; inventoryFetch "token" "L1" [];
     WriteFile "winesearcher-feed.txt"
       ("SKU|name|description|vintage|unit-size|price|stock|url|min-order|tax|offer-type|delivery-time|LWIN|imageurl"
        +:+ String "010" "")] ++ rest.
Proof.
  destruct (feed_header_and_newlines (stockByVarId []) []) as (_ & _ & _ & _ & H).
  apply (H Sample.env Sample.square_empty Sample.disk
           {| cat_objects := None; cat_related_objects := None |} {| inv_counts := None |}).
  - intros [E|E]; discriminate E.
  - eexists. repeat split; reflexivity.
  - apply Forall_nil. exact I.
  - eexists. repeat split; reflexivity.
Defined.

(** ** Vintage *)

Lemma isDigit_isWordChar (c : ascii) : isDigit c = true -> isWordChar c = true.
Proof. unfold isWordChar. intros ->. rewrite orb_true_r. reflexivity. Qed.

Ltac closed_bool f x :=
  tryif is_var x then fail else
    (let v := eval vm_compute in (f x) in change (f x) with v).

Ltac bool_step :=
  match goal with
  | |- context [isWordChar ?x] => closed_bool isWordChar x
  | |- context [isDigit ?x] => closed_bool isDigit x
  | |- context [Ascii.eqb ?x ?y] =>
      tryif is_var x then fail else
        (let v := eval vm_compute in (Ascii.eqb x y) in change (Ascii.eqb x y) with v)
  | H : Ascii.eqb ?x _ = true |- _ => apply Ascii.eqb_eq in H; subst x
  | H : isWordChar ?x = _ |- context [isWordChar ?x] => rewrite H
  | H : isDigit ?x = _ |- context [isDigit ?x] => rewrite H
  | H : Ascii.eqb ?x ?y = false |- context [Ascii.eqb ?x ?y] => rewrite H
  | |- context [Ascii.eqb ?x ?y] =>
      is_var x; let H := fresh "E" in destruct (Ascii.eqb x y) eqn:H
  | |- context [isDigit ?x] =>
      is_var x; let H := fresh "D" in
      destruct (isDigit x) eqn:H; [pose proof (isDigit_isWordChar _ H)|]
  | |- context [isWordChar ?x] =>
      is_var x; let H := fresh "W" in destruct (isWordChar x) eqn:H
  | |- context [isWordAt ?x] =>
      is_var x; let H := fresh "W" in destruct (isWordAt x) eqn:H
  | |- context [isWordAt (firstChar ?x)] =>
      is_var x; let H := fresh "W" in destruct (isWordAt (firstChar x)) eqn:H
  | H : isWordAt (firstChar ?x) = _ |- context [isWordAt (firstChar ?x)] => rewrite H
  end.

Lemma rmatch_vintage (prev : option ascii) (s : string) :
  match rmatch vintage_re prev s with
  | (t, _, _) :: _ => Some t
  | [] => None
  end = vintageAt prev s.
Proof.
  unfold vintage_re, lit2, vintageAt, yearPrefix.
  destruct s as [|a [|b [|c [|d rest]]]];
    repeat (cbn [rmatch flat_map map app firstChar isWordAt xorb negb andb orb];
            try reflexivity; try bool_step).
Qed.

Lemma search_vintage_step (prev : option ascii) (s : string) :
  search vintage_re prev s =
  match vintageAt prev s with
  | Some t => Some t
  | None =>
      match s with
      | "" => None
      | String c s' => search vintage_re (Some c) s'
      end
  end.
Proof.
  rewrite <- rmatch_vintage.
  destruct s; cbn [search]; destruct (rmatch vintage_re prev _) as [|[[t p] r] l];
    reflexivity.
Qed.

Lemma vintageAt_inword (prev : option ascii) (s : string) :
  isWordAt prev = true -> vintageAt prev s = None.
Proof.
  intros H. unfold vintageAt. rewrite H.
  destruct s as [|a [|b [|c [|d rest]]]]; reflexivity.
Qed.

Lemma vintageAt_token (prev : option ascii) (s : string) :
  isWordAt prev = false ->
  vintageAt prev s = if isVintageToken (takeWord s) then Some (takeWord s) else None.
Proof.
  intros H. unfold vintageAt, yearPrefix. rewrite H.
  destruct s as [|a [|b [|c [|d [|e rest]]]]];
    repeat (cbn [takeWord isVintageToken firstChar isWordAt xorb negb andb orb];
            unfold yearPrefix; try reflexivity; try bool_step).
Qed.

Lemma tokens_word (c : ascii) (s : string) :
  isWordChar c = true ->
  tokens (String c s) = String c (takeWord s) :: tokens (dropWord s).
Proof.
  intros Hc. cbn [tokens]. rewrite Hc.
  induction s as [|c' s' IH] in c, Hc |- *; [reflexivity|].
  cbn [tokens takeWord dropWord firstChar isWordAt].
  destruct (isWordChar c') eqn:Hc'.
  - rewrite (IH c' Hc'). reflexivity.
  - cbn [tokens]. rewrite Hc'. destruct (tokens s'); reflexivity.
Qed.

Lemma tokens_nonword (c : ascii) (s : string) :
  isWordChar c = false -> tokens (String c s) = tokens s.
Proof. intros Hc. cbn [tokens]. rewrite Hc. reflexivity. Qed.

(** Scanning from a position outside a word finds the first vintage token
    of the rest; scanning from inside a word first leaves that word. *)
Lemma search_vintage_tokens (s : string) :
  (forall prev, isWordAt prev = false ->
     search vintage_re prev s = List.find isVintageToken (tokens s))
  /\ (forall prev, isWordAt prev = true ->
        search vintage_re prev s = List.find isVintageToken (tokens (dropWord s))).
Proof.
  induction s as [|c s [IH1 IH2]].
  - split; intros prev H; rewrite search_vintage_step; reflexivity.
  - split; intros prev H; rewrite search_vintage_step.
    + rewrite (vintageAt_token _ _ H).
      destruct (isWordChar c) eqn:Hc.
      * rewrite (tokens_word _ _ Hc). cbn [takeWord List.find]. rewrite Hc.
        destruct (isVintageToken (String c (takeWord s))); [reflexivity|].
        apply IH2. exact Hc.
      * rewrite (tokens_nonword _ _ Hc). cbn [takeWord]. rewrite Hc.
        cbn [isVintageToken]. apply IH1. exact Hc.
    + rewrite (vintageAt_inword _ _ H). cbn [dropWord].
      destruct (isWordChar c) eqn:Hc.
      * apply IH2. exact Hc.
      * rewrite (tokens_nonword _ _ Hc). apply IH1. exact Hc.
Qed.

(** C3.  The vintage is the first token of the name, a token being a maximal
    run of letters, digits and underscores, that consists of four digits
    beginning with 18, 19 or 20; it is returned as it stands, and "NV" is
    returned when the name has no such token. *)
Theorem guessVintage_first_token (name : string) :
  guessVintage name = firstVintageToken name.
Proof.
  unfold guessVintage, firstVintageToken, matchFirst.
  rewrite (proj1 (search_vintage_tokens name) None eq_refl).
  destruct (List.find _ _); reflexivity.
Qed.

Example guessVintage_barolo : guessVintage "Barolo 2015 Riserva" = "2015".
Proof. reflexivity. Qed.

Example guessVintage_none : guessVintage "Prosecco Brut 12015 x2015 2015er" = "NV".
Proof. reflexivity. Qed.

Example tokens_barolo : tokens "Barolo 2015, Riserva" = ["Barolo"; "2015"; "Riserva"].
Proof. reflexivity. Qed.

(** ** Prices *)

Lemma div_nearest_even_spec (n d : Z) :
  0 <= n -> 0 < d ->
  - d <= 2 * (div_nearest_even n d * d - n) <= d.
Proof.
  intros Hn Hd. unfold div_nearest_even.
  pose proof (Z.div_mod n d ltac:(lia)) as Hdm.
  pose proof (Z.mod_pos_bound n d Hd) as Hr.
  destruct (Z.compare_spec (2 * (n mod d)) d); [destruct (Z.even (n / d))| |]; nia.
Qed.

Lemma ilog2_ratio_cents (a : Z) :
  0 < a < 7036874417766400 -> ilog2_ratio a 100 <= 45.
Proof.
  intros Ha. unfold ilog2_ratio. cbv zeta. change (Z.log2 100) with 6.
  assert (Hl : Z.log2 a < 53) by (apply Z.log2_lt_pow2; lia).
  destruct (Z.eq_dec (Z.log2 a) 52) as [E|E].
  - rewrite E.
    change (scale 100 (52 - 6)) with 7036874417766400.
    change (scale a (- (52 - 6))) with (a * 1).
    destruct (Z.leb_spec 7036874417766400 (a * 1)); lia.
  - destruct (_ <=? _); lia.
Qed.

(** Below 100 * 2^46 the rounding of the quotient moves it by less than half
    a cent, so the nearest number of cents is the amount itself. *)
Lemma nearest_scaled_cents (a : Z) :
  0 < a < 7036874417766400 ->
  nearest_scaled 100 (binary64_ratio a 100) = a /\ 0 < mant (binary64_ratio a 100).
Proof.
  intros Ha. pose proof (ilog2_ratio_cents a Ha) as Hk.
  unfold binary64_ratio, nearest_scaled. cbn [mant expo].
  set (e := ilog2_ratio a 100 - 52) in *.
  assert (He : e <= -7) by lia.
  unfold scale. rewrite (Z.max_l (- e) 0), (Z.max_r e 0) by lia.
  change (2 ^ 0) with 1. rewrite Z.mul_1_r.
  set (D := 2 ^ (- e)).
  assert (HD : 128 <= D).
  { change 128 with (2 ^ 7). apply Z.pow_le_mono_r; lia. }
  pose proof (div_nearest_even_spec (a * D) 100 ltac:(nia) ltac:(lia)) as Hm.
  set (m := div_nearest_even (a * D) 100) in *.
  assert (Hpos : 0 < m) by nia.
  split; [|exact Hpos].
  destruct (Z.leb_spec 0 e); [lia|].
  rewrite (Z.abs_eq m) by lia.
  symmetry. apply (Z.div_unique _ _ a (2 * (100 * m) + D - 2 * D * a)); [left|]; nia.
Qed.

Lemma substring_app_l (s t : string) :
  String.substring 0 (String.length s) (s +:+ t) = s.
Proof.
  induction s as [|a s IH]; [destruct t; reflexivity|].
  rewrite app_cons. cbn [String.length String.substring]. rewrite IH. reflexivity.
Qed.

Lemma substring_all (t : string) : String.substring 0 (String.length t) t = t.
Proof.
  induction t as [|b t IHt]; [reflexivity|].
  cbn [String.length String.substring]. rewrite IHt. reflexivity.
Qed.

Lemma substring_app_r (s t : string) :
  String.substring (String.length s) (String.length t) (s +:+ t) = t.
Proof.
  induction s as [|a s IH].
  - rewrite app_nil_l. apply substring_all.
  - rewrite app_cons. cbn [String.length String.substring]. exact IH.
Qed.

Lemma pretty_N_go_app (n : N) (s : string) :
  pretty_N_go n s = pretty_N_go n "" +:+ s.
Proof.
  revert s. induction (N.lt_wf_0 n) as [n _ IH]. intros s.
  destruct (N.eq_dec n 0%N) as [->|Hn]; [reflexivity|].
  assert (Hlt : (n / 10 < n)%N) by (apply N.div_lt; lia).
  rewrite !(pretty_N_go_step n) by lia.
  rewrite (IH _ Hlt (String _ s)), (IH _ Hlt (String _ "")).
  rewrite app_assoc. reflexivity.
Qed.

Lemma pretty_N_char_digit (d : N) : (d < 10)%N -> pretty_N_char d = digitChar d.
Proof.
  intros H. destruct d as [|p]; [reflexivity|].
  repeat (match goal with q : positive |- _ => destruct q end;
          try reflexivity; try lia).
Qed.

Lemma pretty_N_small (n : N) : (n < 10)%N -> pretty n = String (digitChar n) "".
Proof.
  intros H. destruct n as [|p]; [reflexivity|].
  repeat (match goal with q : positive |- _ => destruct q end;
          try reflexivity; try lia).
Qed.

Lemma pretty_N_snoc (n : N) :
  (10 <= n)%N ->
  pretty n = pretty (n / 10)%N +:+ String (digitChar (n mod 10)) "".
Proof.
  intros H. unfold pretty, pretty_N.
  assert (0 < n / 10)%N by (apply N.div_str_pos; lia).
  rewrite !decide_False by lia.
  rewrite pretty_N_go_step by lia. rewrite pretty_N_go_app.
  rewrite pretty_N_char_digit by (apply N.mod_lt; lia). reflexivity.
Qed.

Lemma pretty_N_length (n : N) : (1 <= String.length (pretty n))%nat.
Proof.
  destruct (N.lt_ge_cases n 10) as [H|H].
  - rewrite pretty_N_small by exact H. cbn. lia.
  - rewrite pretty_N_snoc by exact H. rewrite length_app. cbn. lia.
Qed.

(** Pointing the digits of [n] gives [n / 100] with two fraction digits. *)
Lemma pointBeforeLast2_pretty (n : N) :
  pointBeforeLast2 (pretty n) =
  pretty (n / 100)%N +:+ "." +:+
  String (digitChar (n / 10 mod 10)%N) (String (digitChar (n mod 10)%N) "").
Proof.
  destruct (N.lt_ge_cases n 10) as [H1|H1].
  - rewrite (pretty_N_small n H1).
    rewrite (N.div_small n 100), (N.div_small n 10), (N.mod_small n 10) by lia.
    reflexivity.
  - rewrite (pretty_N_snoc n H1).
    destruct (N.lt_ge_cases n 100) as [H2|H2].
    + assert (n / 10 < 10)%N by (apply N.Div0.div_lt_upper_bound; lia).
      rewrite (pretty_N_small (n / 10)) by assumption.
      rewrite (N.div_small n 100), (N.mod_small (n / 10) 10) by lia.
      reflexivity.
    + assert (10 <= n / 10)%N by (apply N.div_le_lower_bound; lia).
      rewrite (pretty_N_snoc (n / 10)) by assumption.
      rewrite N.Div0.div_div. change (10 * 10)%N with 100%N.
      set (P := pretty (n / 100)%N).
      pose proof (pretty_N_length (n / 100)) as HP. fold P in HP.
      rewrite app_assoc. set (t := String _ "" +:+ String _ "").
      unfold pointBeforeLast2. rewrite length_app.
      change (String.length t) with 2%nat.
      destruct (Nat.leb_spec (String.length P + 2) 2) as [Hle|_]; [lia|].
      cbv zeta. rewrite length_app. change (String.length t) with 2%nat.
      replace (String.length P + 2 - 2)%nat with (String.length P) by lia.
      rewrite substring_app_l.
      change 2%nat with (String.length t) at 1. rewrite substring_app_r.
      reflexivity.
Qed.

Lemma toFixed2_fdiv_cents (v : Z) :
  0 < Z.abs v < 7036874417766400 -> toFixed2 (fdiv v 100) = decimal2 v.
Proof.
  intros Hv. unfold fdiv. destruct (Z.eqb_spec v 0) as [->|Hne]; [lia|].
  destruct (nearest_scaled_cents (Z.abs v) Hv) as [Hn Hm].
  unfold toFixed2, decimal2, nearest_scaled in *. cbn [mant expo] in *.
  set (x := binary64_ratio (Z.abs v) 100) in *.
  replace (Z.abs (Z.sgn v * mant x)) with (Z.abs (mant x)) by nia.
  rewrite Hn.
  replace (Z.sgn v * mant x <? 0) with (v <? 0)
    by (destruct (Z.ltb_spec v 0), (Z.ltb_spec (Z.sgn v * mant x) 0); nia).
  rewrite pointBeforeLast2_pretty. reflexivity.
Qed.

(** C8, as the code has it.  For an amount of at most 100 * 2^46 minor units
    in absolute value the price is the amount divided by 100 written with
    exactly two fraction digits; an absent amount gives "0.00". *)
Theorem centsToDollars_two_digits (c : safe_int) :
  Z.abs (sval c) <= 7036874417766400 ->
  centsToDollars (Some c) = decimal2 (sval c)
  /\ centsToDollars None = "0.00".
Proof.
  intros Hc. split; [|reflexivity].
  unfold centsToDollars, num_or. destruct c as [v p]. cbn [sval] in *.
  destruct (Z.eqb_spec v 0) as [->|Hne]; [reflexivity|].
  destruct (Z.eq_dec (Z.abs v) 7036874417766400) as [E|E].
  - assert (v = 7036874417766400 \/ v = - 7036874417766400) as [->| ->] by lia;
      vm_compute; reflexivity.
  - apply toFixed2_fdiv_cents. lia.
Qed.

Lemma centsToDollars_two_digits_witness :
  centsToDollars (Sample.int 4599 eq_refl) = "45.99"
  /\ centsToDollars None = "0.00".
Proof.
  destruct (centsToDollars_two_digits (SafeInt 4599 eq_refl)) as [H1 H2].
  - cbn [sval]. lia.
  - split; [unfold Sample.int; rewrite H1; reflexivity | exact H2].
Defined.

(** One minor unit above 100 * 2^46 the quotient rounds to a binary64 value
    that is nearer to the next cent. *)
Lemma centsToDollars_not_every_amount :
  ~ (forall c : safe_int, centsToDollars (Some c) = decimal2 (sval c)).
Proof.
  intros H. specialize (H (SafeInt 7036874417766401 eq_refl)).
  vm_compute in H. discriminate H.
Qed.

Example centsToDollars_rounded :
  centsToDollars (Sample.int 7036874417766401 eq_refl) = "70368744177664.02"
  /\ decimal2 7036874417766401 = "70368744177664.01".
Proof. split; vm_compute; reflexivity. Qed.

Example centsToDollars_negative : centsToDollars (Sample.int (-5) eq_refl) = "-0.05".
Proof. vm_compute. reflexivity. Qed.

(** * Further properties *)

(** ** The encoded query *)

Lemma allChars_app (P : ascii -> bool) (s t : string) :
  allChars P (s +:+ t) = allChars P s && allChars P t.
Proof.
  induction s as [|a s IH]; [reflexivity|].
  rewrite app_cons. cbn [allChars]. rewrite IH, andb_assoc. reflexivity.
Qed.

Lemma allChars_impl (P Q : ascii -> bool) (s : string) :
  (forall c, P c = true -> Q c = true) -> allChars P s = true -> allChars Q s = true.
Proof.
  intros HPQ. induction s as [|a s IH]; [reflexivity|].
  cbn [allChars]. rewrite !andb_true_iff. intros [Ha Hs]. auto.
Qed.

Lemma allChars_occurrences (P : ascii -> bool) (c : ascii) (s : string) :
  P c = false -> allChars P s = true -> occurrences c s = 0%nat.
Proof.
  intros Hc. induction s as [|a s IH]; [reflexivity|].
  cbn [allChars occurrences]. rewrite andb_true_iff. intros [Ha Hs].
  destruct (Ascii.eqb_spec a c) as [->|_]; [congruence|]. rewrite IH by exact Hs. reflexivity.
Qed.

Lemma encodeChar_urlChars (c : ascii) : allChars isUrlChar (encodeChar c) = true.
Proof. destruct c as [[] [] [] [] [] [] [] []]; vm_compute; reflexivity. Qed.

Lemma encodeURIComponent_urlChars (q : string) :
  allChars isUrlChar (encodeURIComponent q) = true.
Proof.
  induction q as [|c q IH]; [reflexivity|].
  cbn [encodeURIComponent]. rewrite allChars_app, encodeChar_urlChars, IH. reflexivity.
Qed.

(** X2.  An encoded query consists of unreserved characters and percent signs
    only: it holds no pipe, no space, no line feed and no ampersand. *)
Theorem encodeQuery_urlChars (q : string) :
  allChars isUrlChar (encodeQuery q) = true
  /\ occurrences "|" (encodeQuery q) = 0%nat
  /\ occurrences " " (encodeQuery q) = 0%nat
  /\ occurrences "010" (encodeQuery q) = 0%nat
  /\ occurrences "&" (encodeQuery q) = 0%nat.
Proof.
  unfold encodeQuery. rewrite replaceAll_same.
  pose proof (encodeURIComponent_urlChars q) as H.
  repeat split; try exact H;
    apply (allChars_occurrences isUrlChar); try exact H; reflexivity.
Qed.

Lemma decodeFirst_encodeChar (c : ascii) (rest : string) :
  decodeFirst (encodeChar c +:+ rest) = Some (c, rest).
Proof. destruct c as [[] [] [] [] [] [] [] []]; reflexivity. Qed.

Lemma encodeURIComponent_inj (a b : string) :
  encodeURIComponent a = encodeURIComponent b -> a = b.
Proof.
  revert b. induction a as [|c a IH]; intros [|d b] H; cbn [encodeURIComponent] in H.
  - reflexivity.
  - apply (f_equal decodeFirst) in H. rewrite decodeFirst_encodeChar in H. discriminate H.
  - apply (f_equal decodeFirst) in H. rewrite decodeFirst_encodeChar in H. discriminate H.
  - apply (f_equal decodeFirst) in H. rewrite !decodeFirst_encodeChar in H.
    injection H as -> H. f_equal. apply IH. exact H.
Qed.

(** X3.  Two names with the same search URL are the same name. *)
Theorem encodeQuery_inj (a b : string) :
  SHOP_SEARCH_BASE +:+ encodeQuery a = SHOP_SEARCH_BASE +:+ encodeQuery b -> a = b.
Proof.
  intros H. apply (inj (String.app SHOP_SEARCH_BASE)) in H.
  unfold encodeQuery in H. rewrite !replaceAll_same in H.
  apply encodeURIComponent_inj. exact H.
Qed.

Lemma encodeQuery_inj_witness : "Chateau Test" = "Chateau Test".
Proof. apply encodeQuery_inj. reflexivity. Defined.

(** ** The vintage as a year *)

Lemma vintageAt_Some (prev : option ascii) (s t : string) :
  vintageAt prev s = Some t ->
  isVintageToken t = true /\ exists rest : string, s = t +:+ rest.
Proof.
  unfold vintageAt. destruct s as [|a [|b [|c [|d rest]]]]; try discriminate.
  destruct (_ && _) eqn:Hc; [|discriminate]. intros [= <-].
  rewrite !andb_true_iff in Hc. destruct Hc as [[[[_ Hy] Hc] Hd] _].
  split; [|exists rest; reflexivity].
  cbn [isVintageToken]. rewrite Hy, Hc, Hd. reflexivity.
Qed.

Lemma search_vintage_sound (prev : option ascii) (s t : string) :
  search vintage_re prev s = Some t ->
  isVintageToken t = true /\ Substring t s.
Proof.
  revert prev. induction s as [|c s IH]; intros prev; rewrite search_vintage_step.
  - cbn [vintageAt]. discriminate.
  - destruct (vintageAt prev (String c s)) as [t'|] eqn:Hv.
    + intros [= ->]. apply vintageAt_Some in Hv as [Ht [rest Hr]].
      split; [exact Ht|]. exists "", rest. exact Hr.
    + intros H. apply IH in H as [Ht (pre & post & ->)].
      split; [exact Ht|]. exists (String c pre), post. reflexivity.
Qed.

Lemma isDigit_code (c : ascii) : isDigit c = true -> (48 <= code c <= 57)%N.
Proof.
  unfold isDigit, in_range. rewrite andb_true_iff, !N.leb_le. tauto.
Qed.

Lemma isVintageToken_year (t : string) :
  isVintageToken t = true ->
  String.length t = 4%nat /\ allChars isDigit t = true
  /\ (1800 <= decimalValue t <= 2099)%N.
Proof.
  destruct t as [|a [|b [|c [|d [|e t]]]]]; try discriminate.
  cbn [isVintageToken]. rewrite !andb_true_iff. intros [[Hy Hc] Hd].
  pose proof (isDigit_code _ Hc). pose proof (isDigit_code _ Hd).
  split; [reflexivity|]. cbn [allChars]. rewrite Hc, Hd.
  unfold yearPrefix in Hy. rewrite !orb_true_iff, !andb_true_iff, !Ascii.eqb_eq in Hy.
  destruct Hy as [[[-> ->]|[-> ->]]|[-> ->]];
    (split; [reflexivity|]); unfold decimalValue;
    change (code "1") with 49%N; change (code "8") with 56%N;
    change (code "9") with 57%N; change (code "2") with 50%N;
    change (code "0") with 48%N; lia.
Qed.

Lemma guessVintage_cases (name : string) :
  guessVintage name = "NV"
  \/ (isVintageToken (guessVintage name) = true /\ Substring (guessVintage name) name).
Proof.
  unfold guessVintage, matchFirst.
  destruct (search vintage_re None name) as [t|] eqn:Hs; [right|left; reflexivity].
  apply search_vintage_sound in Hs. exact Hs.
Qed.

(** X4.  The vintage is "NV", or it is a piece of the name made of four digits
    that read as a year from 1800 to 2099. *)
Theorem guessVintage_year (name : string) :
  guessVintage name = "NV"
  \/ (Substring (guessVintage name) name
      /\ String.length (guessVintage name) = 4%nat
      /\ allChars isDigit (guessVintage name) = true
      /\ (1800 <= decimalValue (guessVintage name) <= 2099)%N).
Proof.
  destruct (guessVintage_cases name) as [H | [Ht Hsub]]; [left; exact H | right].
  split; [exact Hsub|]. apply isVintageToken_year. exact Ht.
Qed.

(** ** Characters of the derived fields *)

Lemma isDigit_isPlain (c : ascii) : isDigit c = true -> isPlain c = true.
Proof. destruct c as [[] [] [] [] [] [] [] []]; vm_compute; congruence. Qed.

Lemma isUrlChar_isPlain (c : ascii) : isUrlChar c = true -> isPlain c = true.
Proof. destruct c as [[] [] [] [] [] [] [] []]; vm_compute; congruence. Qed.

Lemma digitChar_isDigit (d : N) : (d < 10)%N -> isDigit (digitChar d) = true.
Proof.
  intros H. destruct d as [|p]; [reflexivity|].
  repeat (match goal with q : positive |- _ => destruct q end;
          try reflexivity; try lia).
Qed.

Lemma pretty_N_digits (n : N) : allChars isDigit (pretty n) = true.
Proof.
  induction (N.lt_wf_0 n) as [n _ IH].
  destruct (N.lt_ge_cases n 10) as [H|H].
  - rewrite pretty_N_small by exact H. cbn [allChars].
    rewrite digitChar_isDigit by exact H. reflexivity.
  - rewrite pretty_N_snoc by exact H. rewrite allChars_app.
    rewrite IH by (apply N.div_lt; lia). cbn [allChars].
    rewrite digitChar_isDigit by (apply N.mod_lt; lia). reflexivity.
Qed.

Lemma NumberToString_plain (z : Z) : allChars isPlain (NumberToString z) = true.
Proof.
  rewrite NumberToString_signed.
  destruct (z <? 0); [rewrite allChars_app|];
    rewrite (allChars_impl _ _ _ isDigit_isPlain (pretty_N_digits _)); reflexivity.
Qed.

Lemma toFixed2_plain (x : dyadic) : allChars isPlain (toFixed2 x) = true.
Proof.
  unfold toFixed2. cbv zeta. rewrite pointBeforeLast2_pretty.
  rewrite !allChars_app.
  rewrite (allChars_impl _ _ _ isDigit_isPlain (pretty_N_digits _)).
  cbn [allChars].
  rewrite !(isDigit_isPlain (digitChar _)) by (apply digitChar_isDigit, N.mod_lt; lia).
  destruct (mant x <? 0); reflexivity.
Qed.

Lemma guessVintage_plain (name : string) : allChars isPlain (guessVintage name) = true.
Proof.
  destruct (guessVintage_cases name) as [-> | [H _]]; [reflexivity|].
  apply isVintageToken_year in H as (_ & H & _).
  apply (allChars_impl _ _ _ isDigit_isPlain H).
Qed.

Lemma guessUnitSize_plain (name : string) : allChars isPlain (guessUnitSize name) = true.
Proof.
  unfold guessUnitSize. cbv zeta.
  repeat match goal with
  | |- context [includes ?n ?cue] => destruct (includes n cue)
  end; reflexivity.
Qed.

Lemma url_plain (name : string) :
  allChars isPlain (SHOP_SEARCH_BASE +:+ encodeQuery name) = true.
Proof.
  rewrite allChars_app. unfold encodeQuery. rewrite replaceAll_same.
  rewrite (allChars_impl _ _ _ isUrlChar_isPlain (encodeURIComponent_urlChars name)).
  reflexivity.
Qed.

Lemma stockOf_plain (counts : list inventory_count) (u : usable_row) :
  allChars isPlain (stockOf (stockByVarId counts) u) = true.
Proof.
  unfold stockOf. rewrite stockByVarId_lookup.
  destruct (lastCount counts (u_variationId u)) as [c|]; [|reflexivity].
  apply NumberToString_plain.
Qed.

Lemma usableRows_price (cat : catalog_response) (u : usable_row) :
  u ∈ usableRows cat -> exists cents : option safe_int, u_price u = centsToDollars cents.
Proof.
  unfold usableRows. intros H. apply list_elem_of_omap in H as (v & _ & Hv).
  unfold usableRow in Hv. destruct (falsy _); [discriminate|].
  injection Hv as <-. eexists. reflexivity.
Qed.

(** ** Reading a row and the file back *)

Lemma splitOn_none (c : ascii) (s : string) :
  occurrences c s = 0%nat -> splitOn c s = [s].
Proof.
  induction s as [|a s IH]; [reflexivity|].
  cbn [occurrences splitOn]. destruct (Ascii.eqb a c); [discriminate|].
  intros H. rewrite IH by exact H. reflexivity.
Qed.

Lemma splitOn_app_sep (c : ascii) (x rest : string) :
  occurrences c x = 0%nat ->
  splitOn c (x +:+ String c "" +:+ rest) = x :: splitOn c rest.
Proof.
  induction x as [|a x IH].
  - intros _. rewrite app_nil_l, app_cons, app_nil_l. cbn [splitOn].
    rewrite Ascii.eqb_refl. reflexivity.
  - cbn [occurrences]. rewrite app_cons. cbn [splitOn].
    destruct (Ascii.eqb a c); [discriminate|].
    intros H. rewrite IH by exact H. reflexivity.
Qed.

(** Splitting undoes joining when no element holds the separator. *)
Lemma splitOn_join (c : ascii) (l : list string) :
  l <> [] ->
  Forall (fun x => occurrences c x = 0%nat) l ->
  splitOn c (join (String c "") l) = l.
Proof.
  induction l as [|x l IH]; [congruence|]. intros _ Hl.
  apply Forall_cons in Hl as [Hx Hl].
  destruct l as [|y l].
  - cbn [join]. apply splitOn_none. exact Hx.
  - rewrite join_cons by congruence. rewrite splitOn_app_sep by exact Hx.
    rewrite IH by (congruence || exact Hl). reflexivity.
Qed.

Lemma plain_no_pipe (s : string) : allChars isPlain s = true -> occurrences "|" s = 0%nat.
Proof. apply allChars_occurrences. reflexivity. Qed.

Lemma plain_no_LF (s : string) : allChars isPlain s = true -> occurrences "010" s = 0%nat.
Proof. apply allChars_occurrences. reflexivity. Qed.

(** The fields the program derives never hold a pipe or a line feed. *)
Lemma derived_fields_plain (cat : catalog_response) (counts : list inventory_count)
    (u : usable_row) (c : ascii) :
  u ∈ usableRows cat ->
  c = "|"%char \/ c = "010"%char ->
  occurrences c (u_sku u) = 0%nat ->
  occurrences c (u_name u) = 0%nat ->
  Forall (fun x => occurrences c x = 0%nat) (rowFields (stockByVarId counts) u).
Proof.
  intros Hu Hc Hsku Hname.
  assert (Hplain : forall s, allChars isPlain s = true -> occurrences c s = 0%nat).
  { intros s Hs. destruct Hc as [-> | ->]; [apply plain_no_pipe | apply plain_no_LF]; exact Hs. }
  destruct (usableRows_price cat u Hu) as [cents Hp].
  unfold rowFields. cbv zeta.
  repeat first [apply List.Forall_nil | apply List.Forall_cons];
    try exact Hsku; try exact Hname; apply Hplain; try reflexivity.
  - apply guessVintage_plain.
  - apply guessUnitSize_plain.
  - rewrite Hp. apply toFixed2_plain.
  - apply stockOf_plain.
  - apply url_plain.
Qed.

(** X9.  For a row of the catalog whose sku and name hold no pipe, splitting
    the line on the pipe gives back the fourteen fields as they were built. *)
Theorem feedRow_split (cat : catalog_response) (counts : list inventory_count)
    (u : usable_row) :
  u ∈ usableRows cat ->
  occurrences "|" (u_sku u) = 0%nat ->
  occurrences "|" (u_name u) = 0%nat ->
  splitOn "|" (feedRow (stockByVarId counts) u) = rowFields (stockByVarId counts) u
  /\ length (splitOn "|" (feedRow (stockByVarId counts) u)) = 14%nat.
Proof.
  intros Hu Hsku Hname.
  assert (H : splitOn "|" (feedRow (stockByVarId counts) u)
              = rowFields (stockByVarId counts) u).
  { unfold feedRow. apply (splitOn_join "|"); [discriminate|].
    apply (derived_fields_plain cat); auto. }
  split; [exact H|]. rewrite H. reflexivity.
Qed.

Lemma feedRow_split_witness :
  splitOn "|" (feedRow (stockByVarId (default [] (inv_counts Sample.inv))) Sample.row1)
  = ["ABC123"; "Chateau Test"; ""; "NV"; "750ml"; "25.00"; "7";
     "https://www.magazzinonyc.com/s/shop?query=Chateau%20Test"; "";
     "Inc.tax"; "R"; "Next day"; ""; ""].
Proof.
  destruct (feedRow_split Sample.cat (default [] (inv_counts Sample.inv)) Sample.row1)
    as [H _].
  - apply list_elem_of_In. vm_compute. left. reflexivity.
  - reflexivity.
  - reflexivity.
  - rewrite H. vm_compute. reflexivity.
Defined.

Lemma occurrences_join_none (c : ascii) (sep : string) (l : list string) :
  occurrences c sep = 0%nat ->
  Forall (fun x => occurrences c x = 0%nat) l ->
  occurrences c (join sep l) = 0%nat.
Proof.
  intros Hsep. induction l as [|x l IH]; [reflexivity|]. intros Hl.
  apply Forall_cons in Hl as [Hx Hl]. destruct l as [|y l]; [exact Hx|].
  rewrite join_cons by congruence. rewrite !occurrences_app, Hx, Hsep, IH by exact Hl.
  reflexivity.
Qed.

Lemma splitOn_terminated (c : ascii) (l : list string) :
  Forall (fun x => occurrences c x = 0%nat) l ->
  splitOn c (fold_right (fun x acc => x +:+ String c "" +:+ acc) "" l) = l ++ [""].
Proof.
  induction l as [|x l IH]; [reflexivity|]. intros Hl.
  apply Forall_cons in Hl as [Hx Hl]. cbn [fold_right].
  rewrite splitOn_app_sep by exact Hx. rewrite IH by exact Hl. reflexivity.
Qed.

Lemma fold_right_lines {A : Type} (f : A -> string) (sep : string) (l : list A) :
  fold_right (fun u acc => f u +:+ sep +:+ acc) "" l
  = fold_right (fun x acc => x +:+ sep +:+ acc) "" (map f l).
Proof.
  induction l as [|u us IH]; [reflexivity|].
  cbn [map fold_right]. rewrite IH. reflexivity.
Qed.

(** X11.  When no sku and no name of the catalog's rows holds a line feed,
    splitting the file on the line feed gives the header, one line per row in
    the order of the rows, and an empty string after the last line feed. *)
Theorem feed_lines (cat : catalog_response) (inv : inventory_response) :
  Forall (fun u => occurrences "010" (u_sku u) = 0%nat
                   /\ occurrences "010" (u_name u) = 0%nat) (usableRows cat) ->
  let stock := stockByVarId (default [] (inv_counts inv)) in
  splitOn "010" (feedOf cat inv)
  = header :: map (feedRow stock) (usableRows cat) ++ [""].
Proof.
  intros Hrows. cbv zeta. unfold feedOf. rewrite feedText_unfold.
  set (stock := stockByVarId _).
  rewrite (fold_right_lines (feedRow stock) LF).
  unfold LF. rewrite splitOn_app_sep by reflexivity.
  rewrite splitOn_terminated; [reflexivity|].
  apply Forall_fmap. apply Forall_forall. intros u Hu.
  rewrite Forall_forall in Hrows. destruct (Hrows u Hu) as [Hsku Hname].
  unfold feedRow. apply occurrences_join_none; [reflexivity|].
  apply (derived_fields_plain cat); auto.
Qed.

Lemma feed_lines_witness :
  length (splitOn "010" (feedOf Sample.cat Sample.inv)) = 3%nat.
Proof.
  rewrite feed_lines; [reflexivity|].
  apply Forall_forall. intros u Hu. apply list_elem_of_In in Hu.
  vm_compute in Hu. destruct Hu as [<-|[]]. split; reflexivity.
Defined.

(** ** What the joins ignore *)

Lemma itemNameById_items_from (related : list related_object) (m : gmap string string) :
  foldl
    (fun m obj =>
       if String.eqb (obj_type obj) "ITEM"
       then <[obj_id obj := truthy_or ((obj_item_data obj)?.item_name) ""]> m
       else m) m related
  = foldl
      (fun m obj =>
         if String.eqb (obj_type obj) "ITEM"
         then <[obj_id obj := truthy_or ((obj_item_data obj)?.item_name) ""]> m
         else m) m (filter (fun o => obj_type o = "ITEM") related).
Proof.
  revert m. induction related as [|o related IH]; intros m; [reflexivity|].
  cbn [foldl]. destruct (String.eqb_spec (obj_type o) "ITEM") as [He|He].
  - rewrite filter_cons_True by exact He. cbn [foldl].
    rewrite (proj2 (String.eqb_eq _ _) He). apply IH.
  - rewrite filter_cons_False by exact He. apply IH.
Qed.

(** X12.  Related objects that are not of kind ITEM have no influence on the
    file: dropping them from the response leaves it unchanged. *)
Theorem feed_ignores_non_items (cat : catalog_response) (inv : inventory_response) :
  feedOf cat inv =
  feedOf {| cat_objects := cat_objects cat;
            cat_related_objects :=
              Some (filter (fun o => obj_type o = "ITEM")
                      (default [] (cat_related_objects cat))) |} inv.
Proof.
  unfold feedOf, usableRows. cbn [cat_objects cat_related_objects default from_option id].
  unfold itemNameById. rewrite <- itemNameById_items_from. reflexivity.
Qed.

Lemma lastCount_filter (P : inventory_count -> Prop) `{!forall c, Decision (P c)}
    (counts : list inventory_count) (i : string) :
  (forall c, cnt_catalog_object_id c = i -> P c) ->
  lastCount (filter P counts) i = lastCount counts i.
Proof.
  intros HP. unfold lastCount. rewrite list_filter_filter.
  f_equal. apply list_filter_iff. intros c. split; [tauto|]. intros Hc. split; auto.
Qed.

Lemma feedRow_stock_ext (stock stock' : gmap string string) (u : usable_row) :
  stock !! u_variationId u = stock' !! u_variationId u ->
  feedRow stock u = feedRow stock' u.
Proof. intros H. unfold feedRow, rowFields, stockOf. rewrite H. reflexivity. Qed.

(** X13.  Counts for identifiers that belong to no row of the catalog have no
    influence on the file. *)
Theorem feed_ignores_other_counts (cat : catalog_response) (inv : inventory_response) :
  feedOf cat inv =
  feedOf cat
    {| inv_counts :=
         Some (filter (fun c => cnt_catalog_object_id c ∈ map u_variationId (usableRows cat))
                 (default [] (inv_counts inv))) |}.
Proof.
  unfold feedOf. cbn [inv_counts default from_option id].
  set (counts := from_option id [] (inv_counts inv)).
  unfold feedText, feedLines. do 3 f_equal.
  apply map_ext_in. intros u Hu. apply feedRow_stock_ext.
  rewrite !stockByVarId_lookup. f_equal. symmetry. apply lastCount_filter.
  intros c ->. apply list_elem_of_In. apply in_map. exact Hu.
Qed.

(** ** Requests and runs *)

(** X6.  [squareFetch] issues exactly one request whatever the answer, and
    returns a value exactly when the response has a success status and its
    text parses: a response with an error status throws even if its body is
    well-formed JSON. *)
Theorem squareFetch_value {A : Type} (TOKEN : string) (reply : option body -> fetched A)
    (path : string) (b : option body) (v : A) :
  fst (squareFetch TOKEN reply path b) =
    [Fetch ("https://connect.squareup.com" +:+ path)
       (if b is Some _ then "POST" else "GET") ("Bearer " +:+ TOKEN)
       "2024-01-18" "application/json" b]
  /\ (snd (squareFetch TOKEN reply path b) = inr v <-> answers reply b v).
Proof.
  rewrite squareFetch_result. cbn [fst snd]. split; [reflexivity|].
  unfold answers. split.
  - destruct (reply b) as [e|res]; [discriminate|].
    destruct (res_ok res) eqn:Hok; [|discriminate].
    intros H. exists res. auto.
  - intros (res & -> & -> & ->). reflexivity.
Qed.

(** X8.  When the catalog has no variation with a non-empty sku (or no
    variations at all), the count request is still sent, with an empty list
    of identifiers, and on its success the header line alone is written: the
    summary then reports 0 rows, or the error of the write is printed. *)
Theorem empty_catalog_run (env : process_env) (sq : remote) (fs : file_system)
    (cat : catalog_response) (inv : inventory_response) :
  ~ credentialsMissing env ->
  let TOKEN := truthy_or (SQUARE_ACCESS_TOKEN env) "" in
  let LOCATION_ID := truthy_or (SQUARE_LOCATION_ID env) "" in
  answers (catalog_search sq) catalogBody (Some cat) ->
  Forall (fun v => nonEmptySku v = None) (default [] (cat_objects cat)) ->
  answers (batch_retrieve_counts sq)
    (Some (BatchRetrieveCounts [] [LOCATION_ID] ["IN_STOCK"])) (Some inv) ->
  program env sq fs =
  match fs_writeFileSync fs OUT (header +:+ LF) with
  | None =>
      ([catalogFetch TOKEN; inventoryFetch TOKEN LOCATION_ID [];
        WriteFile OUT (header +:+ LF);
        ConsoleLog "Wrote winesearcher-feed.txt with 0 rows."], 0)
  | Some e =>
      ([catalogFetch TOKEN; inventoryFetch TOKEN LOCATION_ID [];
        WriteFile OUT (header +:+ LF);
        ConsoleError e], 1)
  end.
Proof.
  intros Hc TOKEN LOCATION_ID H1 Hnone H2.
  pose proof (usableRows_none cat Hnone) as Hu.
  rewrite (program_reaches_write env sq fs cat inv Hc H1)
    by (unfold inventoryBody; rewrite Hu; exact H2).
  unfold feedOf. rewrite Hu.
  change (feedText (stockByVarId (default [] (inv_counts inv))) []) with (header +:+ LF).
  destruct (fs_writeFileSync fs OUT (header +:+ LF)); reflexivity.
Qed.

Lemma empty_catalog_run_witness :
  program Sample.env Sample.square_empty Sample.disk
  = ([catalogFetch "token"; inventoryFetch "token" "L1" [];
      WriteFile OUT (header +:+ LF);
      ConsoleLog "Wrote winesearcher-feed.txt with 0 rows."], 0).
Proof.
  apply (empty_catalog_run Sample.env Sample.square_empty Sample.disk
           {| cat_objects := None; cat_related_objects := None |} {| inv_counts := None |}).
  - intros [H|H]; discriminate H.
  - eexists. repeat split; reflexivity.
  - apply Forall_nil. exact I.
  - eexists. repeat split; reflexivity.
Defined.

(** ** Prices of all safe amounts *)

Lemma ilog2_ratio_safe (a : Z) :
  0 < a < 9007199254740992 -> ilog2_ratio a 100 <= 46.
Proof.
  intros Ha. unfold ilog2_ratio. cbv zeta. change (Z.log2 100) with 6.
  assert (Hl : Z.log2 a < 53) by (apply Z.log2_lt_pow2; lia).
  destruct (_ <=? _); lia.
Qed.

Lemma nearest_scaled_safe (a : Z) :
  0 < a < 9007199254740992 ->
  a - 1 <= nearest_scaled 100 (binary64_ratio a 100) <= a + 1.
Proof.
  intros Ha. pose proof (ilog2_ratio_safe a Ha) as Hk.
  unfold binary64_ratio, nearest_scaled. cbn [mant expo].
  set (e := ilog2_ratio a 100 - 52) in *.
  assert (He : e <= -6) by lia.
  unfold scale. rewrite (Z.max_l (- e) 0), (Z.max_r e 0) by lia.
  change (2 ^ 0) with 1. rewrite Z.mul_1_r.
  set (D := 2 ^ (- e)).
  assert (HD : 64 <= D).
  { change 64 with (2 ^ 6). apply Z.pow_le_mono_r; lia. }
  pose proof (div_nearest_even_spec (a * D) 100 ltac:(nia) ltac:(lia)) as Hm.
  set (m := div_nearest_even (a * D) 100) in *.
  assert (Hpos : 0 < m) by nia.
  destruct (Z.leb_spec 0 e); [lia|].
  rewrite (Z.abs_eq m) by lia. split.
  - apply Z.div_le_lower_bound; nia.
  - assert ((2 * (100 * m) + D) / (2 * D) < a + 2); [|lia].
    apply Z.div_lt_upper_bound; nia.
Qed.

(** X5.  For every amount the API can send as a safe integer the price is a
    signed decimal with exactly two fraction digits, and it is the exact
    price of an amount at most one minor unit away. *)
Theorem centsToDollars_within_one (c : safe_int) :
  exists c' : Z,
    Z.abs (c' - sval c) <= 1 /\ centsToDollars (Some c) = decimal2 c'.
Proof.
  destruct c as [v p]. cbn [sval]. unfold centsToDollars, num_or. cbn [sval].
  unfold isSafeInteger in p. apply Z.leb_le in p.
  change (2 ^ 53 - 1) with 9007199254740991 in p.
  destruct (Z.eqb_spec v 0) as [->|Hne]; [exists 0; split; [lia | reflexivity]|].
  destruct (Z_lt_le_dec (Z.abs v) 7036874417766400) as [Hs|Hb].
  - exists v. split; [lia|]. apply toFixed2_fdiv_cents. lia.
  - pose proof (nearest_scaled_safe (Z.abs v) ltac:(lia)) as Hn.
    unfold fdiv. destruct (Z.eqb_spec v 0) as [|_]; [contradiction|].
    set (x := binary64_ratio (Z.abs v) 100) in *.
    assert (Hm : 0 < mant x).
    { unfold x, binary64_ratio. cbn [mant].
      pose proof (ilog2_ratio_safe (Z.abs v) ltac:(lia)) as Hk.
      set (e := ilog2_ratio (Z.abs v) 100 - 52) in *.
      unfold scale. rewrite (Z.max_l (- e) 0), (Z.max_r e 0) by lia.
      assert (64 <= 2 ^ (- e)) by (change 64 with (2 ^ 6); apply Z.pow_le_mono_r; lia).
      pose proof (div_nearest_even_spec (Z.abs v * 2 ^ (- e)) (100 * 2 ^ 0)
                    ltac:(nia) ltac:(lia)) as Hd.
      change (2 ^ 0) with 1 in *. nia. }
    set (n := nearest_scaled 100 x) in *.
    exists (Z.sgn v * n). split; [nia|].
    unfold toFixed2, decimal2. cbn [mant expo].
    assert (Hnx : nearest_scaled 100 {| mant := Z.sgn v * mant x; expo := expo x |} = n).
    { unfold n, nearest_scaled. cbn [mant expo].
      replace (Z.abs (Z.sgn v * mant x)) with (Z.abs (mant x)) by nia. reflexivity. }
    rewrite Hnx.
    replace (Z.sgn v * mant x <? 0) with (Z.sgn v * n <? 0)
      by (destruct (Z.ltb_spec (Z.sgn v * n) 0), (Z.ltb_spec (Z.sgn v * mant x) 0); nia).
    replace (Z.abs (Z.sgn v * n)) with n by nia.
    rewrite pointBeforeLast2_pretty. reflexivity.
Qed.

(** ** Trimmed names *)

Lemma trimStart_first (s : string) : isSpaceAt (firstChar (trimStart s)) = false.
Proof.
  induction s as [|c s IH]; [reflexivity|].
  cbn [trimStart]. destruct (isSpace c) eqn:Hc; [exact IH|].
  cbn [firstChar isSpaceAt]. exact Hc.
Qed.

Lemma trimEnd_last (s : string) : isSpaceAt (lastChar (trimEnd s)) = false.
Proof.
  induction s as [|c s IH]; [reflexivity|].
  cbn [trimEnd]. destruct (trimEnd s) as [|b r] eqn:Hr.
  - destruct (isSpace c) eqn:Hc; [reflexivity|]. cbn [lastChar isSpaceAt]. exact Hc.
  - exact IH.
Qed.

Lemma trimEnd_first (s : string) :
  isSpaceAt (firstChar s) = false -> isSpaceAt (firstChar (trimEnd s)) = false.
Proof.
  destruct s as [|c s]; [reflexivity|]. cbn [firstChar isSpaceAt]. intros Hc.
  cbn [trimEnd]. destruct (trimEnd s); [rewrite Hc|]; cbn [firstChar isSpaceAt]; exact Hc.
Qed.

Lemma trim_trimmed (s : string) : untrimmed (trim s) = false.
Proof.
  unfold untrimmed, trim.
  rewrite trimEnd_first by apply trimStart_first. rewrite trimEnd_last. reflexivity.
Qed.

(** X14.  The name of a row neither begins nor ends with white space, unless
    it is the sku standing in for an empty composed name. *)
Theorem usableRow_name_trimmed (names : gmap string string) (v : variation) (u : usable_row) :
  usableRow names v = Some u ->
  u_name u = u_sku u \/ untrimmed (u_name u) = false.
Proof.
  unfold usableRow. destruct (falsy _); [discriminate|]. intros [= <-].
  cbn [u_name u_sku].
  match goal with |- context [fullName ?a ?b] =>
    assert (Hf : untrimmed (fullName a b) = false)
      by (unfold fullName; destruct (_ && _); apply trim_trimmed);
    destruct (fullName a b) as [|x r]
  end.
  - left. reflexivity.
  - right. exact Hf.
Qed.

Lemma usableRow_name_trimmed_witness :
  untrimmed "Chateau Test Magnum" = false.
Proof.
  destruct (usableRow_name_trimmed (itemNameById [Sample.item1 " Chateau Test"])
              (Sample.variation1 "ABC123" "I1" "Magnum " None)
              {| u_sku := "ABC123"; u_name := "Chateau Test Magnum"; u_variationId := "V1";
                 u_price := "0.00"; u_imageUrl := None |}) as [H|H].
  - vm_compute. reflexivity.
  - discriminate H.
  - exact H.
Defined.

(** ** Catalogs without pipes *)

Lemma occurrences_trimStart_le (c : ascii) (s : string) :
  (occurrences c (trimStart s) <= occurrences c s)%nat.
Proof.
  induction s as [|a s IH]; [reflexivity|].
  cbn [trimStart]. destruct (isSpace a); [|reflexivity].
  cbn [occurrences]. lia.
Qed.

Lemma occurrences_trimEnd_le (c : ascii) (s : string) :
  (occurrences c (trimEnd s) <= occurrences c s)%nat.
Proof.
  induction s as [|a s IH]; [reflexivity|].
  cbn [trimEnd]. destruct (trimEnd s) as [|b r].
  - destruct (isSpace a); cbn [occurrences]; lia.
  - cbn [occurrences] in *. lia.
Qed.

Lemma occurrences_trim (c : ascii) (s : string) :
  occurrences c s = 0%nat -> occurrences c (trim s) = 0%nat.
Proof.
  intros H. unfold trim.
  pose proof (occurrences_trimEnd_le c (trimStart s)).
  pose proof (occurrences_trimStart_le c s). lia.
Qed.

Lemma occurrences_fullName (itemName varName : string) :
  occurrences "|" itemName = 0%nat ->
  occurrences "|" varName = 0%nat ->
  occurrences "|" (fullName itemName varName) = 0%nat.
Proof.
  intros Hi Hv. unfold fullName. destruct (_ && _); apply occurrences_trim; [|exact Hi].
  rewrite !occurrences_app, Hi, Hv. reflexivity.
Qed.

Lemma occurrences_parentName (related : list related_object) (v : variation) :
  Forall (fun o => occurrences "|" (default "" ((obj_item_data o)?.item_name)) = 0%nat)
    related ->
  occurrences "|" (parentName related v) = 0%nat.
Proof.
  intros Hrel. unfold parentName.
  destruct ((var_item_variation_data v)?.ivd_item_id) as [i|]; [|reflexivity].
  destruct (last _) as [o|] eqn:Hlast; [|reflexivity].
  apply last_Some_elem_of in Hlast. apply list_elem_of_filter in Hlast as [_ Ho].
  rewrite Forall_forall in Hrel. apply Hrel. exact Ho.
Qed.

(** X10.  When no sku, no variation name and no item name of the catalog holds
    a pipe, every data row splits on the pipe into its fourteen fields. *)
Theorem clean_catalog_rows (cat : catalog_response) (counts : list inventory_count) :
  Forall (fun v =>
            occurrences "|" (default "" ((var_item_variation_data v)?.ivd_sku)) = 0%nat
            /\ occurrences "|" (default "" ((var_item_variation_data v)?.ivd_name)) = 0%nat)
    (default [] (cat_objects cat)) ->
  Forall (fun o => occurrences "|" (default "" ((obj_item_data o)?.item_name)) = 0%nat)
    (default [] (cat_related_objects cat)) ->
  Forall (fun u => splitOn "|" (feedRow (stockByVarId counts) u)
                   = rowFields (stockByVarId counts) u)
    (usableRows cat).
Proof.
  intros Hvars Hrel. apply Forall_forall. intros u Hu.
  assert (Hclean : occurrences "|" (u_sku u) = 0%nat /\ occurrences "|" (u_name u) = 0%nat).
  { pose proof Hu as Hu'. unfold usableRows in Hu'.
    apply list_elem_of_omap in Hu' as (v & Hv & Hrow).
    rewrite Forall_forall in Hvars. destruct (Hvars v Hv) as [Hsku Hname].
    unfold usableRow in Hrow.
    destruct ((var_item_variation_data v)?.ivd_sku) as [[|a sku]|] eqn:Es;
      cbn [falsy] in Hrow; try discriminate.
    injection Hrow as <-. cbn [u_sku u_name truthy_or default from_option id] in *.
    split; [exact Hsku|].
    rewrite itemName_parentName, truthy_or_empty.
    pose proof (occurrences_fullName _ _ (occurrences_parentName _ v Hrel) Hname) as Hf.
    clear Hu. destruct (fullName _ _); cbn [truthy_or]; [exact Hsku | exact Hf]. }
  destruct Hclean as [Hsku Hname].
  unfold feedRow. apply (splitOn_join "|"); [discriminate|].
  apply (derived_fields_plain cat); auto.
Qed.

Lemma clean_catalog_rows_witness :
  Forall (fun u => length (splitOn "|" (feedRow (stockByVarId []) u)) = 14%nat)
    (usableRows Sample.magnum_cat).
Proof.
  pose proof (clean_catalog_rows Sample.magnum_cat []) as H.
  eapply Forall_impl; [apply H|].
  - repeat constructor.
  - repeat constructor.
  - intros u ->. reflexivity.
Defined.
